(** * httpagain: graceful accept / drain lifecycle

    A shallow embedding of package [httpagain] (cenkalti/httpagain):
    the per-connection timeout wrapper [timeoutConn], the single-use
    listener [singleListener], the accept loop [acceptLoop], the request
    tracking of [wrapHandler], and the shutdown sequence of
    [ListenAndServe] with its [timeoutWaitGroup] waiters.

    Conventions.
    - [time.Time] and [time.Duration] are integers counting nanoseconds.
    - Every call the package makes on an object it does not implement
      (a [net.Conn], the [net.Listener], [goagain.Exec],
      [http.Server.Serve]'s own set-up) is recorded in the [World]: the
      call is pushed on [history] (most recent call first) and answered by
      [env], an arbitrary function of the history so far.  Theorems
      quantify over [env], so they hold for every behaviour of the
      network and of the operating system.
    - Goroutines are interleaved at the granularity of the statements of
      the source: a run is a list of [Event]s, each letting one goroutine
      (or the outside world) perform its next action. *)

From Stdlib Require Import ZArith List Bool Lia String Ascii.
Import ListNotations.
Open Scope Z_scope.

(* ================================================================== *)
(** * Time *)

Definition Time : Type := Z.
Definition Duration : Type := Z.

Definition Millisecond : Duration := 1000000.
Definition Second : Duration := 1000 * Millisecond.

(** [t.Add(d)] *)
Definition time_Add (t : Time) (d : Duration) : Time := t + d.

(** [const breakAcceptInterval = 100 * time.Millisecond] *)
Definition breakAcceptInterval : Duration := 100 * Millisecond.

(* ================================================================== *)
(** * Errors *)

(** The error values the package tells apart.  [errSingleListen] is the
    package's own sentinel (compared by identity with [==]); a
    [net.OpError] pointer is inspected through [Timeout()] and through the text
    of the error it wraps; every other error is seen through [Error()]
    only. *)
Inductive error : Type :=
| errSingleListen
| OpError (timeout : bool) (Err : string)
| ErrText (text : string).

Definition closing_text : string := "use of closed network connection".

Definition error_text (e : error) : string :=
  match e with
  | errSingleListen => "errSingleListen"
  | OpError _ inner => inner
  | ErrText t => t
  end.

(** [goagain.IsErrClosing]: unwraps a [net.OpError] pointer, then compares the
    text with "use of closed network connection". *)
Definition IsErrClosing (e : error) : bool :=
  String.eqb closing_text (error_text e).

(** [err == errSingleListen] *)
Definition is_errSingleListen (e : error) : bool :=
  match e with
  | errSingleListen => true
  | _ => false
  end.

(** Result of a statement that may panic. *)
Inductive outcome (A : Type) : Type :=
| Returned (a : A)
| Panicked.
Arguments Returned {A} a.
Arguments Panicked {A}.

(* ================================================================== *)
(** * The outside world *)

(** Handle of a raw connection returned by the listener. *)
Definition net_Conn : Type := nat.

Record net_Listener : Type := {
  listener_isTCP : bool;      (* dynamic type is a pointer to [net.TCPListener] *)
  listener_addr : string
}.

Inductive Call : Type :=
| CConnRead (c : net_Conn) (b : list Byte.byte)
| CConnWrite (c : net_Conn) (b : list Byte.byte)
| CConnClose (c : net_Conn)
| CConnSetReadDeadline (c : net_Conn) (t : Time)
| CConnSetWriteDeadline (c : net_Conn) (t : Time)
| CListenerSetDeadline (t : Time)
| CListenerAccept
| CServeSetup
| CExec.

(** What a call answers: a byte count, an error ([None] is [nil]) and,
    for [Accept], the connection. *)
Record Reply : Type := {
  reply_n : Z;
  reply_err : option error;
  reply_conn : net_Conn
}.

Definition Env : Type := list Call -> Call -> Reply.

Record World : Type := {
  now : Time;
  history : list Call;
  env : Env
}.

(** State monad over the world. *)
Definition M (A : Type) : Type := World -> A * World.

Definition ret {A} (a : A) : M A := fun w => (a, w).

Definition bind {A B} (m : M A) (k : A -> M B) : M B :=
  fun w => let (a, w1) := m w in k a w1.

Notation "x <- m ;; k" := (bind m (fun x => k))
  (at level 61, m at next level, right associativity).

Definition call (c : Call) : M Reply :=
  fun w =>
    (env w (history w) c,
     {| now := now w; history := c :: history w; env := env w |}).

(** [time.Now()] *)
Definition time_Now : M Time := fun w => (now w, w).

Definition conn_Read (c : net_Conn) (b : list Byte.byte) : M (Z * option error) :=
  r <- call (CConnRead c b) ;; ret (reply_n r, reply_err r).

Definition conn_Write (c : net_Conn) (b : list Byte.byte) : M (Z * option error) :=
  r <- call (CConnWrite c b) ;; ret (reply_n r, reply_err r).

Definition conn_Close (c : net_Conn) : M (option error) :=
  r <- call (CConnClose c) ;; ret (reply_err r).

Definition conn_SetReadDeadline (c : net_Conn) (t : Time) : M (option error) :=
  r <- call (CConnSetReadDeadline c t) ;; ret (reply_err r).

Definition conn_SetWriteDeadline (c : net_Conn) (t : Time) : M (option error) :=
  r <- call (CConnSetWriteDeadline c t) ;; ret (reply_err r).

Definition listener_SetDeadline (t : Time) : M (option error) :=
  r <- call (CListenerSetDeadline t) ;; ret (reply_err r).

Definition listener_Accept : M (net_Conn + error) :=
  r <- call CListenerAccept ;;
  ret match reply_err r with
      | Some e => inr e
      | None => inl (reply_conn r)
      end.

(** Number of calls of the history that satisfy [p]. *)
Definition count_calls (p : Call -> bool) (w : World) : nat :=
  List.length (List.filter p (history w)).

Definition is_close_of (c : net_Conn) (k : Call) : bool :=
  match k with
  | CConnClose c' => Nat.eqb c c'
  | _ => false
  end.

Definition is_accept (k : Call) : bool :=
  match k with
  | CListenerAccept => true
  | _ => false
  end.

Definition is_exec (k : Call) : bool :=
  match k with
  | CExec => true
  | _ => false
  end.

(* ================================================================== *)
(** * Package variables *)

Record Vars : Type := {
  RequestGracePeriod : Duration;
  GoroutineGracePeriod : Duration;
  TCPReadTimeout : Duration;
  TCPWriteTimeout : Duration
}.

Definition default_vars : Vars := {|
  RequestGracePeriod := 30 * Second;
  GoroutineGracePeriod := 30 * Second;
  TCPReadTimeout := 30 * Second;
  TCPWriteTimeout := 30 * Second
|}.

(* ================================================================== *)
(** * sync.WaitGroup and sync.Once *)

(** A [sync.WaitGroup] is its counter.  [Add] stores the new value and
    then panics when it is negative.  The run-time detection of an [Add]
    racing with [Wait] is not modelled. *)
Definition WaitGroup : Type := Z.

Definition wg_Add (delta : Z) (wg : WaitGroup) : WaitGroup := wg + delta.

Definition wg_Add_panics (delta : Z) (wg : WaitGroup) : bool := wg + delta <? 0.

Definition wg_Done (wg : WaitGroup) : WaitGroup := wg_Add (-1) wg.

(** A [sync.Once] is its [done] flag.  [Do f] runs [f] when the flag is
    clear and sets it, also when [f] panics; callers are serialised by
    the mutex of the [Once], so [Do] is one atomic action. *)
Record Once : Type := { done : bool }.

Definition once_Do {S : Type} (o : Once) (f : S -> outcome S) (s : S)
  : Once * outcome S :=
  if done o then (o, Returned s) else ({| done := true |}, f s).

(* ================================================================== *)
(** * timeoutConn *)

Record timeoutConn : Type := {
  Conn : net_Conn;
  readTimeout : Duration;
  writeTimeout : Duration
}.

Definition timeoutConn_Read (c : timeoutConn) (b : list Byte.byte)
  : M (Z * option error) :=
  if 0 <? readTimeout c then
    t <- time_Now ;;
    err <- conn_SetReadDeadline (Conn c) (time_Add t (readTimeout c)) ;;
    match err with
    | Some e => ret (0, Some e)
    | None => conn_Read (Conn c) b
    end
  else conn_Read (Conn c) b.

Definition timeoutConn_Write (c : timeoutConn) (b : list Byte.byte)
  : M (Z * option error) :=
  if 0 <? writeTimeout c then
    t <- time_Now ;;
    err <- conn_SetWriteDeadline (Conn c) (time_Add t (writeTimeout c)) ;;
    match err with
    | Some e => ret (0, Some e)
    | None => conn_Write (Conn c) b
    end
  else conn_Write (Conn c) b.

(* ================================================================== *)
(** * singleListener *)

(** [conn] is [None] for a nil interface value. *)
Record singleListener : Type := {
  l : net_Listener;
  conn : option net_Conn;
  once : Once
}.

(** [&singleListener{l: l, conn: c}] *)
Definition new_singleListener (ln : net_Listener) (c : net_Conn) : singleListener :=
  {| l := ln; conn := Some c; once := {| done := false |} |}.

Definition with_once (s : singleListener) (o : Once) : singleListener :=
  {| l := l s; conn := conn s; once := o |}.

(** The local variable [c] starts as nil; the closure given to [Do]
    assigns [s.conn] to it. *)
Definition singleListener_Accept (v : Vars) (s : singleListener)
  : (timeoutConn + error) * singleListener :=
  let (o, r) := once_Do (once s) (fun _ => Returned (conn s)) None in
  match r with
  | Returned (Some c) =>
      (inl {| Conn := c;
              readTimeout := TCPReadTimeout v;
              writeTimeout := TCPWriteTimeout v |},
       with_once s o)
  | _ => (inr errSingleListen, with_once s o)
  end.

(** The named result [err] starts as nil; the closure assigns the result
    of [s.conn.Close()] to it.  Calling [Close] on a nil [conn] panics. *)
Definition singleListener_Close (s : singleListener)
  : M (outcome (option error) * singleListener) :=
  fun w =>
    let (o, r) :=
      once_Do (once s)
        (fun st : option error * World =>
           match conn s with
           | Some c => let (e, w1) := conn_Close c (snd st) in Returned (e, w1)
           | None => Panicked
           end)
        (None, w) in
    match r with
    | Returned (e, w1) => ((Returned e, with_once s o), w1)
    | Panicked => ((Panicked, with_once s o), w)
    end.

Definition singleListener_Addr (s : singleListener) : string :=
  listener_addr (l s).

(** The first revision of the adapter ([httpagain.go]) hands out the raw
    connection. *)
Definition singleListener_Accept_v1 (s : singleListener)
  : (net_Conn + error) * singleListener :=
  let (o, r) := once_Do (once s) (fun _ => Returned (conn s)) None in
  match r with
  | Returned (Some c) => (inl c, with_once s o)
  | _ => (inr errSingleListen, with_once s o)
  end.

(** A schedule of calls on one adapter, each atomic at its [once.Do]. *)
Inductive ListenerOp : Type := OpAccept | OpClose.

Inductive OpResult : Type :=
| ResAccept (r : timeoutConn + error)
| ResClose (r : outcome (option error)).

Fixpoint run_ops (v : Vars) (ops : list ListenerOp) (s : singleListener)
  : M (list OpResult * singleListener) :=
  match ops with
  | [] => ret ([], s)
  | OpAccept :: rest =>
      let (r, s1) := singleListener_Accept v s in
      p <- run_ops v rest s1 ;;
      ret (ResAccept r :: fst p, snd p)
  | OpClose :: rest =>
      p <- singleListener_Close s ;;
      q <- run_ops v rest (snd p) ;;
      ret (ResClose (fst p) :: fst q, snd q)
  end.

Definition is_accepted (r : OpResult) : bool :=
  match r with
  | ResAccept (inl _) => true
  | _ => false
  end.

(** Number of calls that were handed the connection. *)
Definition handed_out (rs : list OpResult) : nat :=
  List.length (List.filter is_accepted rs).

(* ================================================================== *)
(** * http.Server.Serve on a single-use listener *)

(** [net/http] is not part of the package.  [Serve] is modelled by its
    documented contract: it defers [l.Close()], may fail during its own
    set-up (the reply to [CServeSetup]), and otherwise accepts
    connections from the listener, starting one service goroutine per
    connection, until [Accept] fails; it returns that error. *)
Fixpoint serve_accept (fuel : nat) (v : Vars) (s : singleListener)
  (spawned : list timeoutConn)
  : option (error * list timeoutConn * singleListener) :=
  match fuel with
  | O => None
  | S k =>
      match singleListener_Accept v s with
      | (inr e, s1) => Some (e, spawned, s1)
      | (inl tc, s1) => serve_accept k v s1 (spawned ++ [tc])
      end
  end.

Record ServeResult : Type := {
  serve_err : outcome error;
  serve_spawned : list timeoutConn;
  serve_listener : singleListener
}.

Definition serve_deferred_Close (e : error) (spawned : list timeoutConn)
  (s : singleListener) : M ServeResult :=
  p <- singleListener_Close s ;;
  ret {| serve_err := match fst p with
                      | Returned _ => Returned e
                      | Panicked => Panicked
                      end;
         serve_spawned := spawned;
         serve_listener := snd p |}.

Definition http_Serve (fuel : nat) (v : Vars) (s : singleListener)
  : M (option ServeResult) :=
  r <- call CServeSetup ;;
  match reply_err r with
  | Some e => x <- serve_deferred_Close e [] s ;; ret (Some x)
  | None =>
      match serve_accept fuel v s [] with
      | None => ret None
      | Some (e, spawned, s1) =>
          x <- serve_deferred_Close e spawned s1 ;; ret (Some x)
      end
  end.

(** Two rounds of [Accept] exhaust a single-use listener. *)
Definition serve_fuel : nat := 2.

(* ================================================================== *)
(** * The process: goroutines and their program counters *)

Inductive LoopPc : Type :=
| AtSelect                    (* top of the [for]: [select] on [Shutdown] *)
| AtSetDeadline               (* [SetDeadline] on the TCP listener *)
| AtAccept                    (* [l.Accept()] and the tests on its error *)
| AtAdd (c : net_Conn)        (* [requestWG.Add(1)] *)
| AtServe (c : net_Conn)      (* [srv.Serve(sl)] and the tests on its error *)
| LoopReturned                (* [return]; the deferred [acceptWG.Done()] ran *)
| LoopFatal                   (* [log.Fatalln(err)]: the process exits *)
| LoopPanicked.               (* an unrecovered panic *)

Inductive Signal : Type := SIGINT | SIGQUIT | SIGTERM | SIGUSR2.

Definition is_SIGUSR2 (sig : Signal) : bool :=
  match sig with
  | SIGUSR2 => true
  | _ => false
  end.

Inductive MainPc : Type :=
| MainWait                          (* blocked in [goagain.Wait(l)] *)
| MainCloseShutdown (sig : Signal)  (* [close(Shutdown)] *)
| MainSpawnWaiters (sig : Signal)   (* [allDoneWG.Add(3)] and the three [go] *)
| MainWaitAll (sig : Signal)        (* [allDoneWG.Wait()] *)
| MainExec (sig : Signal)           (* [if goagain.SIGUSR2 == sig] *)
| MainReturned                      (* [ListenAndServe] returned *)
| MainExeced                        (* [goagain.Exec] replaced the process *)
| MainFatal.                        (* [log.Fatalln(err)] *)

(** The three pools that shutdown waits for. *)
Inductive Pool : Type := PAccept | PRequest | PGoroutine.

(** The goroutine [wg.Wait(); close(doneWG)] started by
    [timeoutWaitGroup]. *)
Inductive InnerPc : Type :=
| InnerAbsent
| InnerStart                  (* about to call [wg.Wait()] *)
| InnerWaiting                (* blocked in [wg.Wait()] *)
| InnerReleased               (* [wg.Wait()] returned *)
| InnerClosed.                (* [close(doneWG)] done *)

Inductive WaiterPc : Type :=
| WAbsent
| WStart                      (* goroutine created, nothing executed yet *)
| WSelect                     (* blocked in the [select] *)
| WFinished (timed_out : bool).

Record Waiter : Type := {
  w_pc : WaiterPc;
  w_inner : InnerPc;
  w_timeout : Duration;       (* argument [timeout] *)
  w_msg : string;             (* argument [timeoutMsg] *)
  w_timer : option Time       (* when [timeoutChan] fires; [None] is nil *)
}.

Definition no_waiter : Waiter :=
  {| w_pc := WAbsent; w_inner := InnerAbsent; w_timeout := 0;
     w_msg := EmptyString; w_timer := None |}.

Inductive ProcStatus : Type :=
| Running
| Exited                      (* [os.Exit(1)] from [log.Fatalln] *)
| Crashed                     (* unrecovered panic *)
| Replaced.                   (* [goagain.Exec] succeeded *)

(** [h.ServeHTTP] either returns or panics. *)
Inductive HandlerOutcome : Type := HandlerReturned | HandlerPanicked.

Record State : Type := mkState {
  world : World;
  vars : Vars;
  listener : net_Listener;
  status : ProcStatus;
  Shutdown : bool;                 (* the channel is closed *)
  acceptWG : WaitGroup;
  requestWG : WaitGroup;
  goroutineWG : WaitGroup;
  allDoneWG : WaitGroup;
  loop : LoopPc;
  main : MainPc;
  w_accept : Waiter;
  w_request : Waiter;
  w_goroutine : Waiter;
  serving : list timeoutConn;      (* connections owned by a service goroutine *)
  running : list net_Conn;         (* handler invocations in progress *)
  accepted : nat;                  (* connections returned by [l.Accept()] *)
  finished : nat;                  (* handler invocations that ended *)
  recovered : nat;                 (* panics recovered by net/http *)
  log : list string                (* most recent line first *)
}.

Definition set_world (x : World) (s : State) : State :=
  mkState x (vars s) (listener s) (status s) (Shutdown s) (acceptWG s)
    (requestWG s) (goroutineWG s) (allDoneWG s) (loop s) (main s) (w_accept s)
    (w_request s) (w_goroutine s) (serving s) (running s) (accepted s)
    (finished s) (recovered s) (log s).

Definition set_vars (x : Vars) (s : State) : State :=
  mkState (world s) x (listener s) (status s) (Shutdown s) (acceptWG s)
    (requestWG s) (goroutineWG s) (allDoneWG s) (loop s) (main s) (w_accept s)
    (w_request s) (w_goroutine s) (serving s) (running s) (accepted s)
    (finished s) (recovered s) (log s).

Definition set_status (x : ProcStatus) (s : State) : State :=
  mkState (world s) (vars s) (listener s) x (Shutdown s) (acceptWG s)
    (requestWG s) (goroutineWG s) (allDoneWG s) (loop s) (main s) (w_accept s)
    (w_request s) (w_goroutine s) (serving s) (running s) (accepted s)
    (finished s) (recovered s) (log s).

Definition set_Shutdown (x : bool) (s : State) : State :=
  mkState (world s) (vars s) (listener s) (status s) x (acceptWG s)
    (requestWG s) (goroutineWG s) (allDoneWG s) (loop s) (main s) (w_accept s)
    (w_request s) (w_goroutine s) (serving s) (running s) (accepted s)
    (finished s) (recovered s) (log s).

Definition set_acceptWG (x : WaitGroup) (s : State) : State :=
  mkState (world s) (vars s) (listener s) (status s) (Shutdown s) x
    (requestWG s) (goroutineWG s) (allDoneWG s) (loop s) (main s) (w_accept s)
    (w_request s) (w_goroutine s) (serving s) (running s) (accepted s)
    (finished s) (recovered s) (log s).

Definition set_requestWG (x : WaitGroup) (s : State) : State :=
  mkState (world s) (vars s) (listener s) (status s) (Shutdown s) (acceptWG s)
    x (goroutineWG s) (allDoneWG s) (loop s) (main s) (w_accept s)
    (w_request s) (w_goroutine s) (serving s) (running s) (accepted s)
    (finished s) (recovered s) (log s).

Definition set_goroutineWG (x : WaitGroup) (s : State) : State :=
  mkState (world s) (vars s) (listener s) (status s) (Shutdown s) (acceptWG s)
    (requestWG s) x (allDoneWG s) (loop s) (main s) (w_accept s)
    (w_request s) (w_goroutine s) (serving s) (running s) (accepted s)
    (finished s) (recovered s) (log s).

Definition set_allDoneWG (x : WaitGroup) (s : State) : State :=
  mkState (world s) (vars s) (listener s) (status s) (Shutdown s) (acceptWG s)
    (requestWG s) (goroutineWG s) x (loop s) (main s) (w_accept s)
    (w_request s) (w_goroutine s) (serving s) (running s) (accepted s)
    (finished s) (recovered s) (log s).

Definition set_loop (x : LoopPc) (s : State) : State :=
  mkState (world s) (vars s) (listener s) (status s) (Shutdown s) (acceptWG s)
    (requestWG s) (goroutineWG s) (allDoneWG s) x (main s) (w_accept s)
    (w_request s) (w_goroutine s) (serving s) (running s) (accepted s)
    (finished s) (recovered s) (log s).

Definition set_main (x : MainPc) (s : State) : State :=
  mkState (world s) (vars s) (listener s) (status s) (Shutdown s) (acceptWG s)
    (requestWG s) (goroutineWG s) (allDoneWG s) (loop s) x (w_accept s)
    (w_request s) (w_goroutine s) (serving s) (running s) (accepted s)
    (finished s) (recovered s) (log s).

Definition set_w_accept (x : Waiter) (s : State) : State :=
  mkState (world s) (vars s) (listener s) (status s) (Shutdown s) (acceptWG s)
    (requestWG s) (goroutineWG s) (allDoneWG s) (loop s) (main s) x
    (w_request s) (w_goroutine s) (serving s) (running s) (accepted s)
    (finished s) (recovered s) (log s).

Definition set_w_request (x : Waiter) (s : State) : State :=
  mkState (world s) (vars s) (listener s) (status s) (Shutdown s) (acceptWG s)
    (requestWG s) (goroutineWG s) (allDoneWG s) (loop s) (main s) (w_accept s)
    x (w_goroutine s) (serving s) (running s) (accepted s)
    (finished s) (recovered s) (log s).

Definition set_w_goroutine (x : Waiter) (s : State) : State :=
  mkState (world s) (vars s) (listener s) (status s) (Shutdown s) (acceptWG s)
    (requestWG s) (goroutineWG s) (allDoneWG s) (loop s) (main s) (w_accept s)
    (w_request s) x (serving s) (running s) (accepted s)
    (finished s) (recovered s) (log s).

Definition set_serving (x : list timeoutConn) (s : State) : State :=
  mkState (world s) (vars s) (listener s) (status s) (Shutdown s) (acceptWG s)
    (requestWG s) (goroutineWG s) (allDoneWG s) (loop s) (main s) (w_accept s)
    (w_request s) (w_goroutine s) x (running s) (accepted s)
    (finished s) (recovered s) (log s).

Definition set_running (x : list net_Conn) (s : State) : State :=
  mkState (world s) (vars s) (listener s) (status s) (Shutdown s) (acceptWG s)
    (requestWG s) (goroutineWG s) (allDoneWG s) (loop s) (main s) (w_accept s)
    (w_request s) (w_goroutine s) (serving s) x (accepted s)
    (finished s) (recovered s) (log s).

Definition set_accepted (x : nat) (s : State) : State :=
  mkState (world s) (vars s) (listener s) (status s) (Shutdown s) (acceptWG s)
    (requestWG s) (goroutineWG s) (allDoneWG s) (loop s) (main s) (w_accept s)
    (w_request s) (w_goroutine s) (serving s) (running s) x
    (finished s) (recovered s) (log s).

Definition set_finished (x : nat) (s : State) : State :=
  mkState (world s) (vars s) (listener s) (status s) (Shutdown s) (acceptWG s)
    (requestWG s) (goroutineWG s) (allDoneWG s) (loop s) (main s) (w_accept s)
    (w_request s) (w_goroutine s) (serving s) (running s) (accepted s)
    x (recovered s) (log s).

Definition set_recovered (x : nat) (s : State) : State :=
  mkState (world s) (vars s) (listener s) (status s) (Shutdown s) (acceptWG s)
    (requestWG s) (goroutineWG s) (allDoneWG s) (loop s) (main s) (w_accept s)
    (w_request s) (w_goroutine s) (serving s) (running s) (accepted s)
    (finished s) x (log s).

Definition set_log (x : list string) (s : State) : State :=
  mkState (world s) (vars s) (listener s) (status s) (Shutdown s) (acceptWG s)
    (requestWG s) (goroutineWG s) (allDoneWG s) (loop s) (main s) (w_accept s)
    (w_request s) (w_goroutine s) (serving s) (running s) (accepted s)
    (finished s) (recovered s) x.

Definition pool_counter (p : Pool) (s : State) : WaitGroup :=
  match p with
  | PAccept => acceptWG s
  | PRequest => requestWG s
  | PGoroutine => goroutineWG s
  end.

Definition set_pool_counter (p : Pool) (x : WaitGroup) (s : State) : State :=
  match p with
  | PAccept => set_acceptWG x s
  | PRequest => set_requestWG x s
  | PGoroutine => set_goroutineWG x s
  end.

Definition waiter (p : Pool) (s : State) : Waiter :=
  match p with
  | PAccept => w_accept s
  | PRequest => w_request s
  | PGoroutine => w_goroutine s
  end.

Definition set_waiter (p : Pool) (x : Waiter) (s : State) : State :=
  match p with
  | PAccept => set_w_accept x s
  | PRequest => set_w_request x s
  | PGoroutine => set_w_goroutine x s
  end.

Definition with_pc (x : WaiterPc) (w : Waiter) : Waiter :=
  {| w_pc := x; w_inner := w_inner w; w_timeout := w_timeout w;
     w_msg := w_msg w; w_timer := w_timer w |}.

Definition with_inner (x : InnerPc) (w : Waiter) : Waiter :=
  {| w_pc := w_pc w; w_inner := x; w_timeout := w_timeout w;
     w_msg := w_msg w; w_timer := w_timer w |}.

Definition with_timer (x : option Time) (w : Waiter) : Waiter :=
  {| w_pc := w_pc w; w_inner := w_inner w; w_timeout := w_timeout w;
     w_msg := w_msg w; w_timer := x |}.

(** [log.Println(msg)] *)
Definition log_Println (msg : string) (s : State) : State :=
  set_log (msg :: log s) s.

(** [log.Fatalln(err)]: prints, then [os.Exit(1)]; deferred calls do not
    run. *)
Definition log_Fatalln (e : error) (s : State) : State :=
  set_status Exited (log_Println (error_text e) s).

(** [wg.Add(delta)] on the counter of pool [p].  When the counter reaches
    zero the goroutine blocked in [wg.Wait()] is released. *)
Definition pool_Add (p : Pool) (delta : Z) (s : State) : State :=
  let n := wg_Add delta (pool_counter p s) in
  let s1 := set_pool_counter p n s in
  match w_inner (waiter p s1) with
  | InnerWaiting =>
      if n =? 0 then set_waiter p (with_inner InnerReleased (waiter p s1)) s1
      else s1
  | _ => s1
  end.

(** [wg.Add(delta)] by a goroutine nobody recovers panics for: a negative
    counter crashes the process. *)
Definition pool_Add_or_crash (p : Pool) (delta : Z) (s : State) : State :=
  if wg_Add_panics delta (pool_counter p s)
  then set_status Crashed (pool_Add p delta s)
  else pool_Add p delta s.

(* ================================================================== *)
(** * acceptLoop *)

(** What an iteration does next. *)
Inductive Verdict : Type :=
| Continue                    (* [continue], or the end of the loop body *)
| Return                      (* [return] *)
| Fatal (e : error)           (* [log.Fatalln(err)] *)
| Panic.                      (* failed type assertion *)

(** The tests on the error of [l.Accept()]. *)
Definition accept_error_verdict (err : error) : Verdict :=
  if IsErrClosing err then Return
  else match err with
       | OpError timeout _ => if timeout then Continue else Fatal err
       | _ => Panic
       end.

(** The tests on the result of [srv.Serve(sl)]. *)
Definition serve_error_verdict (err : option error) : Verdict :=
  match err with
  | Some e => if is_errSingleListen e then Continue else Fatal e
  | None => Continue
  end.

(** Leaving [acceptLoop] runs the deferred [acceptWG.Done()]. *)
Definition acceptLoop_return (s : State) : State :=
  if wg_Add_panics (-1) (acceptWG s)
  then set_loop LoopPanicked (pool_Add_or_crash PAccept (-1) s)
  else set_loop LoopReturned (pool_Add_or_crash PAccept (-1) s).

Definition acceptLoop_panic (s : State) : State :=
  set_status Crashed (set_loop LoopPanicked (pool_Add PAccept (-1) s)).

Definition apply_verdict (v : Verdict) (s : State) : State :=
  match v with
  | Continue => set_loop AtSelect s
  | Return => acceptLoop_return s
  | Fatal e => log_Fatalln e (set_loop LoopFatal s)
  | Panic => acceptLoop_panic s
  end.

(** One action of the goroutine running [acceptLoop]. *)
Definition acceptLoop_step (s : State) : State :=
  match loop s with
  | AtSelect =>
      if Shutdown s then acceptLoop_return s else set_loop AtSetDeadline s
  | AtSetDeadline =>
      if listener_isTCP (listener s) then
        let (err, w) :=
          (t <- time_Now ;;
           listener_SetDeadline (time_Add t breakAcceptInterval)) (world s) in
        match err with
        | Some e => apply_verdict (Fatal e) (set_world w s)
        | None => set_loop AtAccept (set_world w s)
        end
      else acceptLoop_panic s
  | AtAccept =>
      let (r, w) := listener_Accept (world s) in
      match r with
      | inr err => apply_verdict (accept_error_verdict err) (set_world w s)
      | inl c =>
          set_loop (AtAdd c) (set_accepted (S (accepted s)) (set_world w s))
      end
  | AtAdd c =>
      if wg_Add_panics 1 (requestWG s)
      then acceptLoop_panic (pool_Add PRequest 1 s)
      else set_loop (AtServe c) (pool_Add PRequest 1 s)
  | AtServe c =>
      let sl := new_singleListener (listener s) c in
      let (r, w) := http_Serve serve_fuel (vars s) sl (world s) in
      match r with
      | None => s
      | Some x =>
          let s1 := set_serving (serving s ++ serve_spawned x) (set_world w s) in
          match serve_err x with
          | Returned e => apply_verdict (serve_error_verdict (Some e)) s1
          | Panicked => apply_verdict Panic s1
          end
      end
  | LoopReturned | LoopFatal | LoopPanicked => s
  end.

(* ================================================================== *)
(** * wrapHandler, Begin, End *)

Fixpoint remove_first (c : net_Conn) (cs : list net_Conn) : list net_Conn :=
  match cs with
  | [] => []
  | x :: rest => if Nat.eqb c x then rest else x :: remove_first c rest
  end.

Definition is_serving (c : net_Conn) (s : State) : bool :=
  existsb (fun tc => Nat.eqb c (Conn tc)) (serving s).

Definition is_running (c : net_Conn) (s : State) : bool :=
  existsb (Nat.eqb c) (running s).

(** The service goroutine of connection [c] has read a request and calls
    the wrapped handler. *)
Definition handler_start (c : net_Conn) (s : State) : State :=
  if is_serving c s then set_running (c :: running s) s else s.

(** The handler installed by [wrapHandler] defers [wg.Done()] and calls
    [h.ServeHTTP]: the counter is decremented when [h] returns and when
    it panics.  net/http recovers a panic of the service goroutine. *)
Definition wrapHandler_exit (o : HandlerOutcome) (s : State) : State :=
  let panics :=
    match o with
    | HandlerPanicked => true
    | HandlerReturned => wg_Add_panics (-1) (requestWG s)
    end in
  let s1 := pool_Add PRequest (-1) s in
  if panics then set_recovered (S (recovered s1)) s1 else s1.

Definition handler_return (c : net_Conn) (o : HandlerOutcome) (s : State) : State :=
  if is_running c s then
    wrapHandler_exit o
      (set_finished (S (finished s))
         (set_running (remove_first c (running s)) s))
  else s.

(** [func Begin() { goroutineWG.Add(1) }] *)
Definition Begin (s : State) : State := pool_Add_or_crash PGoroutine 1 s.

(** [func End() { goroutineWG.Done() }] *)
Definition End (s : State) : State := pool_Add_or_crash PGoroutine (-1) s.

(* ================================================================== *)
(** * timeoutWaitGroup *)

Definition timer_fired (w : Waiter) (t : Time) : bool :=
  match w_timer w with
  | Some d => d <=? t
  | None => false
  end.

Definition doneWG_closed (w : Waiter) : bool :=
  match w_inner w with
  | InnerClosed => true
  | _ => false
  end.

(** [allDoneWG.Done()] at the end of [timeoutWaitGroup]. *)
Definition allDoneWG_Done (s : State) : State :=
  let s1 := set_allDoneWG (wg_Done (allDoneWG s)) s in
  if wg_Add_panics (-1) (allDoneWG s) then set_status Crashed s1 else s1.

Definition waiter_finish (p : Pool) (timed_out : bool) (s : State) : State :=
  let w := waiter p s in
  let s1 := if timed_out then log_Println (w_msg w) s else s in
  allDoneWG_Done (set_waiter p (with_pc (WFinished timed_out) w) s1).

(** One action of the goroutine running [timeoutWaitGroup] for pool [p].
    [pick_timeout] is the choice of [select] when both cases are ready. *)
Definition timeoutWaitGroup_step (p : Pool) (pick_timeout : bool) (s : State)
  : State :=
  let w := waiter p s in
  match w_pc w with
  | WAbsent => s
  | WStart =>
      let timer :=
        if 0 <? w_timeout w
        then Some (time_Add (now (world s)) (w_timeout w))
        else None in
      set_waiter p (with_pc WSelect (with_timer timer (with_inner InnerStart w))) s
  | WSelect =>
      match doneWG_closed w, timer_fired w (now (world s)) with
      | true, true => waiter_finish p pick_timeout s
      | true, false => waiter_finish p false s
      | false, true => waiter_finish p true s
      | false, false => s
      end
  | WFinished _ => s
  end.

(** One action of the goroutine [wg.Wait(); close(doneWG)]. *)
Definition inner_step (p : Pool) (s : State) : State :=
  let w := waiter p s in
  match w_inner w with
  | InnerStart =>
      if pool_counter p s =? 0
      then set_waiter p (with_inner InnerReleased w) s
      else set_waiter p (with_inner InnerWaiting w) s
  | InnerReleased => set_waiter p (with_inner InnerClosed w) s
  | InnerAbsent | InnerWaiting | InnerClosed => s
  end.

(* ================================================================== *)
(** * ListenAndServe, from [goagain.Wait] on *)

Definition request_msg : string :=
  "some requests did not finish in allowed period, they will be killed".

Definition goroutine_msg : string :=
  "some goroutines did not finish in allowed period, they will be killed".

Definition spawn_waiter (timeout : Duration) (msg : string) : Waiter :=
  {| w_pc := WStart; w_inner := InnerAbsent; w_timeout := timeout;
     w_msg := msg; w_timer := None |}.

(** [goagain.Wait(l)] returns [(sig, err)]. *)
Definition main_signal (sig : Signal) (err : option error) (s : State) : State :=
  match main s with
  | MainWait =>
      match err with
      | Some e => log_Fatalln e (set_main MainFatal s)
      | None => set_main (MainCloseShutdown sig) s
      end
  | _ => s
  end.

(** One action of the goroutine running [ListenAndServe]. *)
Definition ListenAndServe_step (s : State) : State :=
  match main s with
  | MainWait => s
  | MainCloseShutdown sig =>
      if Shutdown s then set_status Crashed s
      else set_main (MainSpawnWaiters sig) (set_Shutdown true s)
  | MainSpawnWaiters sig =>
      set_main (MainWaitAll sig)
        (set_w_goroutine (spawn_waiter (GoroutineGracePeriod (vars s)) goroutine_msg)
           (set_w_request (spawn_waiter (RequestGracePeriod (vars s)) request_msg)
              (set_w_accept (spawn_waiter 0 EmptyString)
                 (set_allDoneWG (wg_Add 3 (allDoneWG s)) s))))
  | MainWaitAll sig =>
      if allDoneWG s =? 0 then set_main (MainExec sig) s else s
  | MainExec sig =>
      if is_SIGUSR2 sig then
        let (r, w) := call CExec (world s) in
        match reply_err r with
        | Some e => log_Fatalln e (set_main MainFatal (set_world w s))
        | None => set_status Replaced (set_main MainExeced (set_world w s))
        end
      else set_main MainReturned s
  | MainReturned | MainExeced | MainFatal => s
  end.

(* ================================================================== *)
(** * Runs *)

Inductive Event : Type :=
| EvSignal (sig : Signal) (err : option error)
| EvMain
| EvLoop
| EvWaiter (p : Pool) (pick_timeout : bool)
| EvInner (p : Pool)
| EvHandlerStart (c : net_Conn)
| EvHandlerReturn (c : net_Conn) (o : HandlerOutcome)
| EvBegin
| EvEnd
| EvSetVars (v : Vars)
| EvTick (d : Duration).

Definition tick (d : Duration) (s : State) : State :=
  set_world {| now := now (world s) + Z.max 0 d;
               history := history (world s);
               env := env (world s) |} s.

(** Nothing runs once the process has exited, crashed or been replaced. *)
Definition step (e : Event) (s : State) : State :=
  match status s with
  | Running =>
      match e with
      | EvSignal sig err => main_signal sig err s
      | EvMain => ListenAndServe_step s
      | EvLoop => acceptLoop_step s
      | EvWaiter p pick => timeoutWaitGroup_step p pick s
      | EvInner p => inner_step p s
      | EvHandlerStart c => handler_start c s
      | EvHandlerReturn c o => handler_return c o s
      | EvBegin => Begin s
      | EvEnd => End s
      | EvSetVars v => set_vars v s
      | EvTick d => tick d s
      end
  | _ => s
  end.

Fixpoint run (es : list Event) (s : State) : State :=
  match es with
  | [] => s
  | e :: rest => run rest (step e s)
  end.

(** The process when [ListenAndServe] blocks in [goagain.Wait]:
    [acceptWG.Add(1)] was called and [acceptLoop] was started. *)
Definition init (v : Vars) (ln : net_Listener) (e : Env) (t0 : Time) : State :=
  {| world := {| now := t0; history := []; env := e |};
     vars := v;
     listener := ln;
     status := Running;
     Shutdown := false;
     acceptWG := 1;
     requestWG := 0;
     goroutineWG := 0;
     allDoneWG := 0;
     loop := AtSelect;
     main := MainWait;
     w_accept := no_waiter;
     w_request := no_waiter;
     w_goroutine := no_waiter;
     serving := [];
     running := [];
     accepted := 0;
     finished := 0;
     recovered := 0;
     log := [] |}.

Definition accept_calls (s : State) : nat := count_calls is_accept (world s).

Definition loop_stopped (s : State) : bool :=
  match loop s with
  | LoopReturned | LoopFatal | LoopPanicked => true
  | _ => false
  end.

(** [allDoneWG.Wait()] has returned. *)
Definition main_past_wait (s : State) : bool :=
  match main s with
  | MainExec _ | MainReturned | MainExeced => true
  | _ => false
  end.

Definition waiter_finished (w : Waiter) : bool :=
  match w_pc w with
  | WFinished _ => true
  | _ => false
  end.

Definition waiter_timed_out (w : Waiter) : bool :=
  match w_pc w with
  | WFinished b => b
  | _ => false
  end.

(* ================================================================== *)
(** * Observations used in the statements *)

(** The wrapper [Accept] builds around connection [c]. *)
Definition wrap (v : Vars) (c : net_Conn) : timeoutConn :=
  {| Conn := c; readTimeout := TCPReadTimeout v; writeTimeout := TCPWriteTimeout v |}.

(** What a call answers once the gate has fired. *)
Definition exhausted (op : ListenerOp) : OpResult :=
  match op with
  | OpAccept => ResAccept (inr errSingleListen)
  | OpClose => ResClose (Returned None)
  end.

Definition closes (c : net_Conn) (w : World) : nat :=
  count_calls (is_close_of c) w.

Definition is_exhausted_accept (r : OpResult) : Prop :=
  match r with
  | ResAccept x => x = inr errSingleListen
  | ResClose _ => True
  end.

(** The results of a schedule of calls. *)
Definition results (v : Vars) (ops : list ListenerOp) (s : singleListener)
  (w : World) : list OpResult :=
  fst (fst (run_ops v ops s w)).

(** The adapter once its gate has fired. *)
Definition fired (s : singleListener) : singleListener :=
  with_once s {| done := true |}.

(** "Calling [Close] [n + 1] times closes connection [c] exactly once,
    and every caller sees success", for an adapter in state [s]. *)
Definition closes_exactly_once (v : Vars) (s : singleListener) (c : net_Conn)
  (w : World) (n : nat) : Prop :=
  closes c (snd (run_ops v (repeat OpClose (S n)) s w)) = S (closes c w) /\
  results v (repeat OpClose (S n)) s w = repeat (ResClose (Returned None)) (S n).

(** A connection returned by [l.Accept()] for which [requestWG.Add(1)]
    has not run yet. *)
Definition pending_add (pc : LoopPc) : Z :=
  match pc with
  | AtAdd _ => 1
  | _ => 0
  end.

(** The [l.Accept()] of the iteration in progress, when it is still to
    come. *)
Definition pending_accept (pc : LoopPc) : nat :=
  match pc with
  | AtSetDeadline | AtAccept => 1
  | _ => 0
  end.

(** Some [l.Accept()] of history [h] (most recent call first) was
    answered with an error that [goagain.IsErrClosing] recognises. *)
Fixpoint closing_reported (e : Env) (h : list Call) : bool :=
  match h with
  | [] => false
  | k :: before =>
      (is_accept k &&
       match reply_err (e before k) with
       | Some err => IsErrClosing err
       | None => false
       end) || closing_reported e before
  end.

(** Waiters that have not called [allDoneWG.Done()] yet. *)
Definition unfinished (w : Waiter) : Z :=
  if waiter_finished w then 0 else 1.

Definition unfinished_waiters (s : State) : Z :=
  unfinished (w_accept s) + unfinished (w_request s) + unfinished (w_goroutine s).

(** The timer of waiter [w] exists and has fired by time [t]. *)
Definition timed_out_at (w : Waiter) (t : Time) : Prop :=
  0 < w_timeout w /\ exists d, w_timer w = Some d /\ d <= t.

(** [wg.Wait()] has returned in the goroutine started by the waiter. *)
Definition inner_released (w : Waiter) : bool :=
  match w_inner w with
  | InnerReleased | InnerClosed => true
  | _ => false
  end.

(** The events of an iteration of [acceptLoop] that accepts a
    connection and hands it to [srv.Serve]. *)
Definition accept_one : list Event := [EvLoop; EvLoop; EvLoop; EvLoop; EvLoop].

(** One request on connection [c], whose handler returns. *)
Definition one_request (c : net_Conn) : list Event :=
  [EvHandlerStart c; EvHandlerReturn c HandlerReturned].

(** What [srv.Serve(sl)] gives for connection [c] in state [s]. *)
Definition serve_result (s : State) (c : net_Conn) : option ServeResult :=
  fst (http_Serve serve_fuel (vars s)
         (new_singleListener (listener s) c) (world s)).

(** The process after [es], started with variables [v], listener [ln],
    environment [e] and clock [t0]. *)
Definition after (es : list Event) (v : Vars) (ln : net_Listener) (e : Env)
  (t0 : Time) : State :=
  run es (init v ln e t0).

(** The grace period that [ListenAndServe] gives to the waiter of pool
    [p]: the second argument of its [go timeoutWaitGroup]. *)
Definition grace_period (p : Pool) (v : Vars) : Duration :=
  match p with
  | PAccept => 0
  | PRequest => RequestGracePeriod v
  | PGoroutine => GoroutineGracePeriod v
  end.

(** [wg.Wait()], in the goroutine started by the waiter of pool [p],
    returns at event [ev] taken in state [s]: the goroutine calls
    [Wait] and finds the counter at zero, or it is blocked in [Wait] on a
    counter that is not zero and the event brings the counter to zero. *)
Definition Wait_returns (p : Pool) (ev : Event) (s : State) : Prop :=
  status s = Running /\
  ((w_inner (waiter p s) = InnerStart /\ ev = EvInner p /\
    pool_counter p s = 0) \/
   (w_inner (waiter p s) = InnerWaiting /\ pool_counter p s <> 0 /\
    pool_counter p (step ev s) = 0)).

(** In state [s] the waiter of pool [p] is about to run: its next action
    creates a timer that fires at [d], its positive grace period from
    now. *)
Definition timer_set_at (p : Pool) (s : State) (d : Time) : Prop :=
  status s = Running /\ w_pc (waiter p s) = WStart /\
  0 < w_timeout (waiter p s) /\
  d = time_Add (now (world s)) (w_timeout (waiter p s)).

(** In state [s], with [Shutdown] closed, [ListenAndServe] is about to
    start the three waiters. *)
Definition about_to_spawn (s : State) : Prop :=
  status s = Running /\ Shutdown s = true /\
  exists sig, main s = MainSpawnWaiters sig.

(* ================================================================== *)
(** * Invariants of the process *)

(** [requestWG] counts the connections accepted and counted, minus the
    handler invocations that ended. *)
Definition request_inv (s : State) : Prop :=
  requestWG s = Z.of_nat (accepted s) - pending_add (loop s) - Z.of_nat (finished s).

(** [acceptWG] is one until [acceptLoop] runs its deferred [Done]. *)
Definition accept_inv (s : State) : Prop :=
  acceptWG s = match loop s with
               | LoopReturned | LoopPanicked => 0
               | _ => 1
               end.

(** [acceptLoop] returns only on a closed [Shutdown] or on a listener
    reported closed. *)
Definition returned_inv (s : State) : Prop :=
  loop s = LoopReturned ->
  Shutdown s = true \/
  closing_reported (env (world s)) (history (world s)) = true.

(** Before the waiters are started. *)
Definition before_waiters (s : State) : Prop :=
  w_pc (w_accept s) = WAbsent /\ w_pc (w_request s) = WAbsent /\
  w_pc (w_goroutine s) = WAbsent /\ allDoneWG s = 0 /\
  count_calls is_exec (world s) = 0%nat.

(** Once the waiters are started, [allDoneWG] counts those that have not
    finished. *)
Definition waiters_started (s : State) : Prop :=
  w_pc (w_accept s) <> WAbsent /\ w_pc (w_request s) <> WAbsent /\
  w_pc (w_goroutine s) <> WAbsent /\ allDoneWG s = unfinished_waiters s.

Definition shutdown_inv (s : State) : Prop :=
  match main s with
  | MainWait | MainCloseShutdown _ | MainSpawnWaiters _ => before_waiters s
  | MainWaitAll _ =>
      waiters_started s /\ count_calls is_exec (world s) = 0%nat
  | MainExec _ | MainReturned =>
      waiters_started s /\ allDoneWG s = 0 /\
      count_calls is_exec (world s) = 0%nat
  | MainExeced => waiters_started s /\ allDoneWG s = 0
  | MainFatal => before_waiters s \/ (waiters_started s /\ allDoneWG s = 0)
  end.

(** How a waiter may have finished. *)
Definition waiter_inv (p : Pool) (s : State) : Prop :=
  let w := waiter p s in
  (w_pc w = WFinished true ->
     timed_out_at w (now (world s)) /\ In (w_msg w) (log s)) /\
  (w_pc w = WFinished false -> doneWG_closed w = true) /\
  (forall d, w_timer w = Some d -> 0 < w_timeout w).

(** What the events of the other goroutines may change of a waiter: only
    the progress of its inner goroutine. *)
Definition waiter_kept (p : Pool) (s s' : State) : Prop :=
  w_pc (waiter p s') = w_pc (waiter p s) /\
  w_timer (waiter p s') = w_timer (waiter p s) /\
  w_timeout (waiter p s') = w_timeout (waiter p s) /\
  w_msg (waiter p s') = w_msg (waiter p s) /\
  (doneWG_closed (waiter p s) = true -> doneWG_closed (waiter p s') = true).

(** A goroutine blocked in [wg.Wait()] sees a counter that is not zero. *)
Definition waiting_inv (p : Pool) (s : State) : Prop :=
  w_inner (waiter p s) = InnerWaiting -> pool_counter p s <> 0.

(** The waiters are started after [close(Shutdown)]. *)
Definition spawn_inv (s : State) : Prop :=
  forall sig, main s = MainSpawnWaiters sig -> Shutdown s = true.

(* ================================================================== *)
(** * Concrete inputs *)

Definition ok_reply (c : net_Conn) : Reply :=
  {| reply_n := 0; reply_err := None; reply_conn := c |}.

Definition err_reply (e : error) : Reply :=
  {| reply_n := 0; reply_err := Some e; reply_conn := 0%nat |}.

(** Every call succeeds; [Accept] returns connection 7. *)
Definition env_ok : Env := fun _ _ => ok_reply 7%nat.

(** As [env_ok], but closing a connection fails. *)
Definition env_close_fails : Env :=
  fun _ k =>
    match k with
    | CConnClose _ => err_reply (ErrText "close failed")
    | _ => ok_reply 7%nat
    end.

Definition io_timeout : error := OpError true "i/o timeout".

(** As [env_ok], but nothing arrives: [Accept] and [Read] time out. *)
Definition env_idle : Env :=
  fun _ k =>
    match k with
    | CListenerAccept | CConnRead _ _ => err_reply io_timeout
    | _ => ok_reply 7%nat
    end.

Definition world0 (e : Env) : World := {| now := 0; history := []; env := e |}.

Definition tcp_listener : net_Listener :=
  {| listener_isTCP := true; listener_addr := ":8080" |}.

(** A handler is still running when SIGUSR2 arrives; the accept loop and
    the goroutine pool drain at once, the request waiter outlasts its
    30 seconds. *)
Definition slow_request_restart : list Event :=
  accept_one ++
  [EvHandlerStart 7%nat; EvSignal SIGUSR2 None; EvMain; EvLoop; EvMain;
   EvWaiter PAccept false; EvWaiter PRequest false; EvWaiter PGoroutine false;
   EvInner PAccept; EvInner PRequest; EvInner PGoroutine;
   EvInner PAccept; EvInner PGoroutine;
   EvWaiter PAccept false; EvWaiter PGoroutine false;
   EvMain; EvTick (30 * Second); EvWaiter PRequest false; EvMain; EvMain].

(** [RequestGracePeriod = 0]. *)
Definition vars_wait_forever : Vars :=
  {| RequestGracePeriod := 0;
     GoroutineGracePeriod := 30 * Second;
     TCPReadTimeout := 30 * Second;
     TCPWriteTimeout := 30 * Second |}.

(** A handler outlives SIGTERM by an hour, then returns. *)
Definition slow_request_terminate : list Event :=
  accept_one ++
  [EvHandlerStart 7%nat; EvSignal SIGTERM None; EvMain; EvLoop; EvMain;
   EvWaiter PRequest true; EvInner PRequest; EvTick (3600 * Second);
   EvWaiter PRequest true; EvHandlerReturn 7%nat HandlerReturned;
   EvInner PRequest; EvWaiter PRequest true].

(** [TCPReadTimeout = 0] and [TCPWriteTimeout = 0]. *)
Definition vars_no_timeouts : Vars :=
  {| RequestGracePeriod := 30 * Second;
     GoroutineGracePeriod := 30 * Second;
     TCPReadTimeout := 0;
     TCPWriteTimeout := 0 |}.

(* ================================================================== *)
(** * Further observations *)

(** An adapter built around a nil connection. *)
Definition nil_singleListener (ln : net_Listener) : singleListener :=
  {| l := ln; conn := None; once := {| done := false |} |}.

(** The adapter after a schedule of calls. *)
Definition adapter_after (v : Vars) (ops : list ListenerOp) (s : singleListener)
  (w : World) : singleListener :=
  snd (fst (run_ops v ops s w)).

(** Calls of [Begin] and of [End] in a list of events. *)
Definition is_Begin (e : Event) : bool :=
  match e with
  | EvBegin => true
  | _ => false
  end.

Definition is_End (e : Event) : bool :=
  match e with
  | EvEnd => true
  | _ => false
  end.

Definition count_events (p : Event -> bool) (es : list Event) : Z :=
  Z.of_nat (List.length (List.filter p es)).

(** [goagain.Wait] returned a signal and no error. *)
Definition is_signal (e : Event) : bool :=
  match e with
  | EvSignal _ None => true
  | _ => false
  end.

(** Calls on the listener. *)
Definition is_listener_call (k : Call) : bool :=
  match k with
  | CListenerSetDeadline _ | CListenerAccept => true
  | _ => false
  end.

Definition listener_calls (w : World) : list Call :=
  List.filter is_listener_call (history w).






(* ================================================================== *)
(** * Further invariants of the process *)

(** The waiter of the accept loop has no grace period, and the goroutine
    it starts gets past [acceptWG.Wait()] only once [acceptLoop] has run
    its deferred [Done]; a loop that panicked took the process down. *)
Definition accept_waiter_inv (s : State) : Prop :=
  accept_inv s /\
  w_timeout (w_accept s) = 0 /\
  (inner_released (w_accept s) = true -> acceptWG s = 0) /\
  (loop s = LoopPanicked -> status s <> Running) /\
  (doneWG_closed (w_accept s) = true -> loop s = LoopReturned).

(** Before [goagain.Wait] has returned a signal: [Shutdown] is open,
    [ListenAndServe] is blocked (or [goagain.Wait] failed and
    [log.Fatalln] ended the process), no waiter exists and
    [goagain.Exec] has not been called. *)
Definition not_signalled (s : State) : Prop :=
  Shutdown s = false /\
  (main s = MainWait \/ (main s = MainFatal /\ status s = Exited)) /\
  w_accept s = no_waiter /\ w_request s = no_waiter /\
  w_goroutine s = no_waiter /\ allDoneWG s = 0 /\
  count_calls is_exec (world s) = 0%nat.


(** With a listener that is no TCP listener nothing is ever accepted. *)
Definition not_tcp_inv (s : State) : Prop :=
  listener_isTCP (listener s) = false ->
  listener_calls (world s) = [] /\ accepted s = 0%nat /\ serving s = [] /\
  (loop s = AtSelect \/ loop s = AtSetDeadline \/
   loop s = LoopReturned \/ loop s = LoopPanicked).

(** A listener on a Unix socket. *)
Definition unix_listener : net_Listener :=
  {| listener_isTCP := false; listener_addr := "/tmp/httpagain.sock" |}.

(* ################################################################## *)
(** * Properties *)

(* ================================================================== *)
(** ** timeoutConn *)

Section TimeoutConnFacts.
Variables (c : timeoutConn) (b : list Byte.byte) (w : World).

(** What the world looks like once call [k] has been made. *)
Lemma call_world (k : Call) :
  snd (call k w) = {| now := now w; history := k :: history w; env := env w |}.
Proof. reflexivity. Qed.

Lemma Read_without_timeout :
  readTimeout c <= 0 -> timeoutConn_Read c b w = conn_Read (Conn c) b w.
Proof.
  intros H. unfold timeoutConn_Read.
  destruct (Z.ltb_spec 0 (readTimeout c)); [lia | reflexivity].
Qed.

Lemma Write_without_timeout :
  writeTimeout c <= 0 -> timeoutConn_Write c b w = conn_Write (Conn c) b w.
Proof.
  intros H. unfold timeoutConn_Write.
  destruct (Z.ltb_spec 0 (writeTimeout c)); [lia | reflexivity].
Qed.

Lemma Read_with_timeout :
  0 < readTimeout c ->
  timeoutConn_Read c b w =
    let k := CConnSetReadDeadline (Conn c) (time_Add (now w) (readTimeout c)) in
    match reply_err (env w (history w) k) with
    | Some e => ((0, Some e), snd (call k w))
    | None => conn_Read (Conn c) b (snd (call k w))
    end.
Proof.
  intros H. unfold timeoutConn_Read.
  destruct (Z.ltb_spec 0 (readTimeout c)); [| lia].
  cbv [bind time_Now conn_SetReadDeadline call ret snd].
  destruct (reply_err _); reflexivity.
Qed.

Lemma Write_with_timeout :
  0 < writeTimeout c ->
  timeoutConn_Write c b w =
    let k := CConnSetWriteDeadline (Conn c) (time_Add (now w) (writeTimeout c)) in
    match reply_err (env w (history w) k) with
    | Some e => ((0, Some e), snd (call k w))
    | None => conn_Write (Conn c) b (snd (call k w))
    end.
Proof.
  intros H. unfold timeoutConn_Write.
  destruct (Z.ltb_spec 0 (writeTimeout c)); [| lia].
  cbv [bind time_Now conn_SetWriteDeadline call ret snd].
  destruct (reply_err _); reflexivity.
Qed.
End TimeoutConnFacts.

(** C7.  With [readTimeout > 0], [Read] first sets the read deadline
    [now + readTimeout] on the underlying connection; when that call
    fails with [e], [Read] returns [(0, e)] and the underlying [Read] is
    not called; when it succeeds, [Read] is the underlying [Read],
    performed after the deadline call.  With [readTimeout = 0], [Read] is
    the underlying [Read] and no deadline is set.  [Write] does the same
    with [writeTimeout] and the write deadline. *)
Theorem C7_timeoutConn_deadline_then_io :
  forall (c : timeoutConn) (b : list Byte.byte) (w : World),
    let rd := CConnSetReadDeadline (Conn c) (now w + readTimeout c) in
    let wd := CConnSetWriteDeadline (Conn c) (now w + writeTimeout c) in
    (0 < readTimeout c ->
       (forall e, reply_err (env w (history w) rd) = Some e ->
          timeoutConn_Read c b w = ((0, Some e), snd (call rd w))) /\
       (reply_err (env w (history w) rd) = None ->
          timeoutConn_Read c b w = conn_Read (Conn c) b (snd (call rd w)))) /\
    (readTimeout c = 0 ->
       timeoutConn_Read c b w = conn_Read (Conn c) b w) /\
    (0 < writeTimeout c ->
       (forall e, reply_err (env w (history w) wd) = Some e ->
          timeoutConn_Write c b w = ((0, Some e), snd (call wd w))) /\
       (reply_err (env w (history w) wd) = None ->
          timeoutConn_Write c b w = conn_Write (Conn c) b (snd (call wd w)))) /\
    (writeTimeout c = 0 ->
       timeoutConn_Write c b w = conn_Write (Conn c) b w).
Proof.
  intros c b w rd wd. repeat split.
  - intros e He. rewrite Read_with_timeout by assumption.
    cbv zeta. unfold time_Add. fold rd. rewrite He. reflexivity.
  - intros He. rewrite Read_with_timeout by assumption.
    cbv zeta. unfold time_Add. fold rd. rewrite He. reflexivity.
  - intros H0. apply Read_without_timeout. lia.
  - intros e He. rewrite Write_with_timeout by assumption.
    cbv zeta. unfold time_Add. fold wd. rewrite He. reflexivity.
  - intros He. rewrite Write_with_timeout by assumption.
    cbv zeta. unfold time_Add. fold wd. rewrite He. reflexivity.
  - intros H0. apply Write_without_timeout. lia.
Qed.

(* ================================================================== *)
(** ** singleListener *)

Section SingleListenerFacts.
Variable v : Vars.

Lemma Accept_fresh (ln : net_Listener) (c : net_Conn) :
  singleListener_Accept v (new_singleListener ln c) =
    (inl (wrap v c), with_once (new_singleListener ln c) {| done := true |}).
Proof. reflexivity. Qed.

Lemma Accept_fired (s : singleListener) :
  done (once s) = true ->
  singleListener_Accept v s = (inr errSingleListen, with_once s (once s)).
Proof.
  intros H. unfold singleListener_Accept, once_Do. rewrite H. reflexivity.
Qed.

Lemma Close_fresh (ln : net_Listener) (c : net_Conn) (w : World) :
  singleListener_Close (new_singleListener ln c) w =
    ((Returned (reply_err (env w (history w) (CConnClose c))),
      with_once (new_singleListener ln c) {| done := true |}),
     snd (call (CConnClose c) w)).
Proof. reflexivity. Qed.

Lemma Close_fired (s : singleListener) (w : World) :
  done (once s) = true ->
  singleListener_Close s w = ((Returned None, with_once s (once s)), w).
Proof.
  intros H. unfold singleListener_Close, once_Do. rewrite H. reflexivity.
Qed.

(** Once the gate has fired, every call is answered without touching
    the connection. *)
Lemma run_ops_fired (ops : list ListenerOp) :
  forall (s : singleListener) (w : World),
    done (once s) = true ->
    fst (fst (run_ops v ops s w)) = map exhausted ops /\
    snd (run_ops v ops s w) = w /\
    done (once (snd (fst (run_ops v ops s w)))) = true.
Proof.
  induction ops as [| op rest IH]; intros s w H.
  - cbn. auto.
  - destruct op; cbn [run_ops].
    + rewrite Accept_fired by assumption.
      unfold bind, ret.
      specialize (IH (with_once s (once s)) w H).
      destruct (run_ops v rest (with_once s (once s)) w) as [[rs s1] w1].
      cbn in *. destruct IH as (-> & -> & ->). auto.
    + unfold bind, ret. rewrite Close_fired by assumption.
      specialize (IH (with_once s (once s)) w H).
      cbn [fst snd].
      destruct (run_ops v rest (with_once s (once s)) w) as [[rs s1] w1].
      cbn in *. destruct IH as (-> & -> & ->). auto.
Qed.

Lemma handed_out_exhausted (ops : list ListenerOp) :
  handed_out (map exhausted ops) = 0%nat.
Proof.
  unfold handed_out.
  induction ops as [| [] rest IH]; cbn; auto.
Qed.

Lemma exhausted_accepts (ops : list ListenerOp) :
  Forall is_exhausted_accept (map exhausted ops).
Proof.
  induction ops as [| [] rest IH]; constructor; cbn; auto.
Qed.

Lemma closes_after_close (c : net_Conn) (w : World) :
  closes c (snd (call (CConnClose c) w)) = S (closes c w).
Proof.
  unfold closes, count_calls. cbn. rewrite Nat.eqb_refl. reflexivity.
Qed.

(** A schedule that starts with [Accept]. *)
Lemma run_ops_accept_first (ln : net_Listener) (c : net_Conn)
  (ops : list ListenerOp) (w : World) :
  fst (fst (run_ops v (OpAccept :: ops) (new_singleListener ln c) w)) =
    ResAccept (inl (wrap v c)) :: map exhausted ops /\
  snd (run_ops v (OpAccept :: ops) (new_singleListener ln c) w) = w.
Proof.
  cbn [run_ops]. rewrite Accept_fresh. unfold bind, ret.
  pose proof (run_ops_fired ops
                (with_once (new_singleListener ln c) {| done := true |}) w
                eq_refl) as (H1 & H2 & _).
  destruct (run_ops v ops _ w) as [[rs s1] w1].
  cbn in *. subst. auto.
Qed.

(** A schedule that starts with [Close]. *)
Lemma run_ops_close_first (ln : net_Listener) (c : net_Conn)
  (ops : list ListenerOp) (w : World) :
  fst (fst (run_ops v (OpClose :: ops) (new_singleListener ln c) w)) =
    ResClose (Returned (reply_err (env w (history w) (CConnClose c))))
      :: map exhausted ops /\
  snd (run_ops v (OpClose :: ops) (new_singleListener ln c) w) =
    snd (call (CConnClose c) w).
Proof.
  cbn [run_ops]. unfold bind, ret. rewrite Close_fresh. cbn [fst snd].
  pose proof (run_ops_fired ops
                (with_once (new_singleListener ln c) {| done := true |})
                (snd (call (CConnClose c) w)) eq_refl) as (H1 & H2 & _).
  destruct (run_ops v ops _ _) as [[rs s1] w1].
  cbn in *. subst. auto.
Qed.
End SingleListenerFacts.

(** C2.  On an adapter built around connection [c], a schedule of calls
    that starts with [Accept] hands the wrapped [c] to that first call,
    and every later [Accept] of the schedule, whoever makes it and
    however many there are, returns [errSingleListen]; in particular
    [n] further [Accept] calls return [errSingleListen] [n] times. *)
Theorem C2_accept_once_then_errSingleListen :
  forall (v : Vars) (ln : net_Listener) (c : net_Conn)
         (ops : list ListenerOp) (n : nat) (w : World),
    (exists rs,
       results v (OpAccept :: ops) (new_singleListener ln c) w =
         ResAccept (inl (wrap v c)) :: rs /\
       List.length rs = List.length ops /\
       Forall is_exhausted_accept rs) /\
    results v (repeat OpAccept (S n)) (new_singleListener ln c) w =
      ResAccept (inl (wrap v c)) :: repeat (ResAccept (inr errSingleListen)) n.
Proof.
  intros v ln c ops n w. unfold results. split.
  - exists (map exhausted ops).
    destruct (run_ops_accept_first v ln c ops w) as [H _].
    repeat split.
    + exact H.
    + apply length_map.
    + apply exhausted_accepts.
  - cbn [repeat].
    destruct (run_ops_accept_first v ln c (repeat OpAccept n) w) as [-> _].
    rewrite map_repeat. reflexivity.
Qed.

(** The first revision returns the raw connection, then the sentinel. *)
Lemma Accept_v1_once (ln : net_Listener) (c : net_Conn) :
  let r := singleListener_Accept_v1 (new_singleListener ln c) in
  fst r = inl c /\ fst (singleListener_Accept_v1 (snd r)) = inr errSingleListen.
Proof. split; reflexivity. Qed.

(** C7, at a connection with a 50ms read timeout on which nothing
    arrives: the deadline is set, then the read is attempted. *)
Lemma C7_witness :
  timeoutConn_Read {| Conn := 7%nat; readTimeout := 50 * Millisecond; writeTimeout := 0 |}
    [] (world0 env_idle) =
  ((0, Some io_timeout),
   {| now := 0;
      history := [CConnRead 7%nat []; CConnSetReadDeadline 7%nat (50 * Millisecond)];
      env := env_idle |}).
Proof.
  destruct (C7_timeoutConn_deadline_then_io
              {| Conn := 7%nat; readTimeout := 50 * Millisecond; writeTimeout := 0 |}
              [] (world0 env_idle)) as [H _].
  destruct (H eq_refl) as [_ H1].
  rewrite (H1 eq_refl). reflexivity.
Defined.

(** C3 does not hold of every adapter: after [Accept] has handed out the connection,
    two [Close] calls close it zero times; and on a fresh adapter whose
    connection fails to close, the first caller gets the error and the
    second gets nil. *)
Lemma C3_counterexample :
  closes 7%nat (snd (run_ops default_vars [OpAccept; OpClose; OpClose]
                   (new_singleListener tcp_listener 7%nat) (world0 env_ok))) = 0%nat /\
  ~ closes_exactly_once default_vars
      (fired (new_singleListener tcp_listener 7%nat)) 7%nat (world0 env_ok) 1 /\
  results default_vars [OpClose; OpClose]
    (new_singleListener tcp_listener 7%nat) (world0 env_close_fails) =
    [ResClose (Returned (Some (ErrText "close failed"))); ResClose (Returned None)] /\
  ~ closes_exactly_once default_vars
      (new_singleListener tcp_listener 7%nat) 7%nat (world0 env_close_fails) 1.
Proof.
  split; [reflexivity |]. split.
  - intros [H _]. vm_compute in H. discriminate H.
  - split; [reflexivity |].
    intros [_ H]. vm_compute in H. discriminate H.
Qed.

(** C3, for an adapter whose gate has not fired: [n + 1] calls
    of [Close] make exactly one call of the connection's [Close]; the
    first caller gets its result, every later caller gets nil.  On an
    adapter whose gate has fired, [Close] calls leave the world as it is
    and return nil. *)
Theorem C3_close_once_unless_accepted :
  forall (v : Vars) (ln : net_Listener) (c : net_Conn) (n : nat) (w : World),
    (let r := run_ops v (repeat OpClose (S n)) (new_singleListener ln c) w in
     snd r = snd (call (CConnClose c) w) /\
     closes c (snd r) = S (closes c w) /\
     fst (fst r) =
       ResClose (Returned (reply_err (env w (history w) (CConnClose c))))
         :: repeat (ResClose (Returned None)) n) /\
    (let r := run_ops v (repeat OpClose n) (fired (new_singleListener ln c)) w in
     snd r = w /\ fst (fst r) = repeat (ResClose (Returned None)) n).
Proof.
  intros v ln c n w. cbv zeta. split.
  - cbn [repeat].
    destruct (run_ops_close_first v ln c (repeat OpClose n) w) as [H1 H2].
    rewrite H1, H2. repeat split.
    + apply closes_after_close.
    + rewrite map_repeat. reflexivity.
  - destruct (run_ops_fired v (repeat OpClose n)
                (fired (new_singleListener ln c)) w eq_refl) as (H1 & H2 & _).
    rewrite H1, H2. split; [reflexivity |].
    apply map_repeat.
Qed.

(** C9.  In every schedule of [Accept] and [Close] calls on a fresh
    adapter, the gate fires for the first call only: the number of calls
    handed the connection plus the number of times it is closed is one.
    When [Accept] comes first the world is untouched (the connection is
    never closed) and every [Close] returns nil; when [Close] comes first
    no [Accept] is ever handed the connection. *)
Theorem C9_gate_fires_for_one_call :
  forall (v : Vars) (ln : net_Listener) (c : net_Conn)
         (op : ListenerOp) (ops : list ListenerOp) (w : World),
    (handed_out (results v (op :: ops) (new_singleListener ln c) w) +
     closes c (snd (run_ops v (op :: ops) (new_singleListener ln c) w)) =
     S (closes c w))%nat /\
    (snd (run_ops v (OpAccept :: ops) (new_singleListener ln c) w) = w /\
     results v (OpAccept :: ops) (new_singleListener ln c) w =
       ResAccept (inl (wrap v c)) :: map exhausted ops /\
     results v [OpAccept; OpClose] (new_singleListener ln c) w =
       [ResAccept (inl (wrap v c)); ResClose (Returned None)]) /\
    (handed_out (results v (OpClose :: ops) (new_singleListener ln c) w) = 0%nat /\
     closes c (snd (run_ops v (OpClose :: ops) (new_singleListener ln c) w)) =
       S (closes c w)).
Proof.
  intros v ln c op ops w. unfold results.
  destruct (run_ops_accept_first v ln c ops w) as [A1 A2].
  destruct (run_ops_close_first v ln c ops w) as [B1 B2].
  repeat split.
  - destruct op.
    + rewrite A1, A2. unfold handed_out. cbn [filter is_accepted List.length].
      fold (handed_out (map exhausted ops)).
      rewrite handed_out_exhausted. reflexivity.
    + rewrite B1, B2, closes_after_close. unfold handed_out.
      cbn [filter is_accepted]. fold (handed_out (map exhausted ops)).
      rewrite handed_out_exhausted. reflexivity.
  - exact A2.
  - exact A1.
  - rewrite B1. unfold handed_out. cbn [filter is_accepted].
    fold (handed_out (map exhausted ops)). apply handed_out_exhausted.
  - rewrite B2. apply closes_after_close.
Qed.

(* ================================================================== *)
(** ** Runs of the process *)

Lemma run_app (es1 : list Event) :
  forall (es2 : list Event) (s : State),
    run (es1 ++ es2) s = run es2 (run es1 s).
Proof. induction es1 as [| e es1 IH]; intros; cbn; auto. Qed.

Lemma run_snoc (es : list Event) (e : Event) (s : State) :
  run (es ++ [e]) s = step e (run es s).
Proof. rewrite run_app. reflexivity. Qed.

(** A property kept by every step holds along every run. *)
Lemma run_invariant (P : State -> Prop) :
  (forall e s, P s -> P (step e s)) ->
  forall es s, P s -> P (run es s).
Proof.
  intros H es. induction es as [| e es IH]; intros s Hs; cbn; auto.
Qed.

Lemma step_stopped (e : Event) (s : State) :
  status s <> Running -> step e s = s.
Proof. unfold step. destruct (status s); congruence. Qed.

Lemma run_stopped (es : list Event) (s : State) :
  status s <> Running -> run es s = s.
Proof.
  intros H. induction es as [| e es IH]; cbn; [reflexivity |].
  rewrite step_stopped by assumption. exact IH.
Qed.

(** [srv.Serve] on a fresh adapter: when its set-up succeeds it starts
    one service goroutine for the wrapped connection, gets
    [errSingleListen] from the second [Accept] and returns it; its
    deferred [Close] finds the gate fired.  When its set-up fails, the
    deferred [Close] closes the connection. *)
Lemma http_Serve_fresh (v : Vars) (ln : net_Listener) (c : net_Conn) (w : World) :
  http_Serve serve_fuel v (new_singleListener ln c) w =
    match reply_err (env w (history w) CServeSetup) with
    | None =>
        (Some {| serve_err := Returned errSingleListen;
                 serve_spawned := [wrap v c];
                 serve_listener := fired (new_singleListener ln c) |},
         snd (call CServeSetup w))
    | Some e =>
        (Some {| serve_err := Returned e;
                 serve_spawned := [];
                 serve_listener := fired (new_singleListener ln c) |},
         snd (call (CConnClose c) (snd (call CServeSetup w))))
    end.
Proof.
  unfold http_Serve, bind, call. cbn [fst snd].
  destruct (reply_err (env w (history w) CServeSetup)); reflexivity.
Qed.

(** More fuel changes nothing: the adapter stops [Serve] at its second
    [Accept]. *)
Lemma serve_accept_fresh (fuel : nat) (v : Vars) (ln : net_Listener) (c : net_Conn) :
  serve_accept (S (S fuel)) v (new_singleListener ln c) [] =
    Some (errSingleListen, [wrap v c], fired (new_singleListener ln c)).
Proof. reflexivity. Qed.

(** The step of [acceptLoop], with [srv.Serve] computed. *)
Lemma acceptLoop_step_AtServe (s : State) (c : net_Conn) :
  loop s = AtServe c ->
  acceptLoop_step s =
    match reply_err (env (world s) (history (world s)) CServeSetup) with
    | None =>
        set_loop AtSelect
          (set_serving (serving s ++ [wrap (vars s) c])
             (set_world (snd (call CServeSetup (world s))) s))
    | Some e =>
        apply_verdict (serve_error_verdict (Some e))
          (set_serving (serving s ++ [])
             (set_world
                (snd (call (CConnClose c) (snd (call CServeSetup (world s))))) s))
    end.
Proof.
  intros H. unfold acceptLoop_step. rewrite H, http_Serve_fresh.
  destruct (reply_err _); reflexivity.
Qed.

Ltac break_match :=
  match goal with
  | p : Pool |- _ => destruct p
  | |- context [match ?x with _ => _ end] => destruct x eqn:?
  | |- context [if ?x then _ else _] => destruct x eqn:?
  end.

Ltac break_hyp :=
  match goal with
  | H : context [match ?x with _ => _ end] |- _ => destruct x eqn:?
  | H : context [if ?x then _ else _] |- _ => destruct x eqn:?
  end.

Ltac unfold_steps :=
  cbv beta delta [step main_signal ListenAndServe_step
    timeoutWaitGroup_step inner_step handler_start handler_return Begin End
    tick wrapHandler_exit waiter_finish allDoneWG_Done apply_verdict
    acceptLoop_return acceptLoop_panic log_Fatalln log_Println
    pool_Add_or_crash pool_Add call bind ret].

Ltac simpl_state :=
  cbn [world vars listener status Shutdown acceptWG requestWG goroutineWG
       allDoneWG loop main w_accept w_request w_goroutine serving running
       accepted finished recovered log
       set_world set_vars set_status set_Shutdown set_acceptWG set_requestWG
       set_goroutineWG set_allDoneWG set_loop set_main set_w_accept
       set_w_request set_w_goroutine set_serving set_running set_accepted
       set_finished set_recovered set_log
       pool_counter set_pool_counter waiter set_waiter
       with_pc with_inner with_timer w_pc w_inner w_timeout w_msg w_timer
       spawn_waiter no_waiter now history env fst snd] in *.

Ltac use_pcs :=
  repeat match goal with
  | H : loop ?s = _ |- context [loop ?s] => rewrite H
  | H : main ?s = _ |- context [main ?s] => rewrite H
  | H : status ?s = _ |- context [status ?s] => rewrite H
  end.

(** Case analysis on a step: which goroutine moves, and from where. *)
Ltac loop_step_cases s :=
  let c := fresh "c" in
  let E := fresh "Eloop" in
  destruct (loop s) as [ | | | c | c | | | ] eqn:E;
  [ unfold acceptLoop_step; rewrite E
  | unfold acceptLoop_step; rewrite E
  | unfold acceptLoop_step; rewrite E
  | unfold acceptLoop_step; rewrite E
  | rewrite (acceptLoop_step_AtServe s c E)
  | unfold acceptLoop_step; rewrite E
  | unfold acceptLoop_step; rewrite E
  | unfold acceptLoop_step; rewrite E ];
  cbv beta delta [bind time_Now listener_SetDeadline listener_Accept call ret
                  serve_error_verdict accept_error_verdict].

Ltac event_cases s tac :=
  let E := fresh "Estatus" in
  unfold step;
  destruct (status s) eqn:E; cbv iota beta;
  try (match goal with
       | |- context [acceptLoop_step s] => loop_step_cases s
       end);
  unfold_steps; simpl_state; use_pcs; try solve [tac];
  repeat (break_match; simpl_state; use_pcs; try solve [tac]).

Ltac step_cases e s tac := destruct e; event_cases s tac.

(* ================================================================== *)
(** ** Invariants *)

Lemma request_inv_step (e : Event) (s : State) :
  request_inv s -> request_inv (step e s).
Proof.
  unfold request_inv. intros H.
  step_cases e s ltac:(cbn [pending_add] in *; unfold wg_Add in *; lia).
Qed.

Lemma accept_inv_step (e : Event) (s : State) :
  accept_inv s -> accept_inv (step e s).
Proof.
  unfold accept_inv. intros H.
  step_cases e s ltac:(unfold wg_Add, wg_Add_panics in *; try rewrite Eloop in *; lia).
Qed.

Lemma Shutdown_step (e : Event) (s : State) :
  Shutdown s = true -> Shutdown (step e s) = true.
Proof.
  intros H. step_cases e s ltac:(auto; congruence).
Qed.

Lemma env_step (e : Event) (s : State) :
  env (world (step e s)) = env (world s).
Proof.
  step_cases e s ltac:(auto).
Qed.

Lemma now_step (e : Event) (s : State) :
  now (world s) <= now (world (step e s)).
Proof.
  step_cases e s ltac:(lia).
Qed.

Lemma closing_reported_cons (e : Env) (k : Call) (h : list Call) :
  closing_reported e h = true -> closing_reported e (k :: h) = true.
Proof. intros H. cbn. rewrite H. apply orb_true_r. Qed.

Lemma returned_inv_step (e : Event) (s : State) :
  returned_inv s -> returned_inv (step e s).
Proof.
  unfold returned_inv. intros H.
  step_cases e s
    ltac:(try rewrite Eloop in *; auto; try discriminate;
          try (intros HR; destruct (H HR) as [-> | HC]; auto;
               right; auto using closing_reported_cons);
          repeat (break_hyp; try discriminate);
          intros _; right; cbn [closing_reported is_accept andb];
          repeat match goal with
                 | H1 : reply_err _ = _ |- _ => rewrite H1
                 | H1 : inr _ = inr _ |- _ => injection H1 as ->
                 | H1 : IsErrClosing _ = _ |- _ => rewrite H1
                 end; reflexivity).
Qed.

Lemma unfinished_bounds (w : Waiter) : 0 <= unfinished w <= 1.
Proof. unfold unfinished. destruct (waiter_finished w); lia. Qed.

(** Events of the other goroutines leave alone what the shutdown
    sequence depends on. *)
Lemma shutdown_frame (e : Event) (s : State) :
  match e with
  | EvSignal _ _ | EvMain | EvWaiter _ _ => True
  | _ =>
      main (step e s) = main s /\
      allDoneWG (step e s) = allDoneWG s /\
      count_calls is_exec (world (step e s)) = count_calls is_exec (world s) /\
      forall p, w_pc (waiter p (step e s)) = w_pc (waiter p s)
  end.
Proof.
  destruct e; try exact I.
  all: event_cases s ltac:(repeat split; try reflexivity; intros []; reflexivity).
Qed.

Lemma shutdown_inv_ext (s s' : State) :
  main s' = main s ->
  allDoneWG s' = allDoneWG s ->
  count_calls is_exec (world s') = count_calls is_exec (world s) ->
  (forall p, w_pc (waiter p s') = w_pc (waiter p s)) ->
  shutdown_inv s -> shutdown_inv s'.
Proof.
  intros Hm Hd Hx Hw.
  pose proof (Hw PAccept) as Ha. pose proof (Hw PRequest) as Hr.
  pose proof (Hw PGoroutine) as Hg. cbn [waiter] in Ha, Hr, Hg.
  unfold shutdown_inv, before_waiters, waiters_started, unfinished_waiters,
    unfinished, waiter_finished.
  rewrite Hm, Hd, Hx, Ha, Hr, Hg. auto.
Qed.

Lemma unfinished_pc (w : Waiter) :
  unfinished w = match w_pc w with WFinished _ => 0 | _ => 1 end.
Proof. unfold unfinished, waiter_finished. destruct (w_pc w); reflexivity. Qed.

(** The three things a step of [timeoutWaitGroup] can do. *)
Lemma waiter_step_cases (p : Pool) (pick : bool) (s : State) :
  timeoutWaitGroup_step p pick s = s \/
  (w_pc (waiter p s) = WStart /\
   timeoutWaitGroup_step p pick s =
     set_waiter p
       (with_pc WSelect
          (with_timer
             (if 0 <? w_timeout (waiter p s)
              then Some (time_Add (now (world s)) (w_timeout (waiter p s)))
              else None)
             (with_inner InnerStart (waiter p s)))) s) \/
  (w_pc (waiter p s) = WSelect /\
   exists b : bool,
     (b = true -> timer_fired (waiter p s) (now (world s)) = true) /\
     (b = false -> doneWG_closed (waiter p s) = true) /\
     timeoutWaitGroup_step p pick s = waiter_finish p b s).
Proof.
  unfold timeoutWaitGroup_step.
  destruct (w_pc (waiter p s)) eqn:Hpc; auto.
  cbv zeta.
  destruct (doneWG_closed (waiter p s)) eqn:Hd,
           (timer_fired (waiter p s) (now (world s))) eqn:Ht; auto;
    right; right; (split; [reflexivity |]).
  - exists pick. auto.
  - exists false. split; [discriminate | auto].
  - exists true. split; [auto | split; [discriminate | reflexivity]].
Qed.

Ltac shutdown_solver H :=
  repeat match goal with
         | Hm : main ?s = _ |- _ => rewrite Hm in H; clear Hm
         end;
  unfold before_waiters, waiters_started, unfinished_waiters,
    count_calls, wg_Done, wg_Add in *;
  simpl_state; cbn [filter is_exec List.length] in *;
  repeat match goal with
         | H1 : _ /\ _ |- _ => destruct H1
         end;
  repeat match goal with
         | |- context [unfinished (Build_Waiter ?x ?a ?b ?c ?d)] =>
             change (unfinished (Build_Waiter x a b c d))
               with (match x with WFinished _ => 0 | _ => 1 end);
             cbv iota
         | |- context [unfinished (with_pc ?x ?w)] =>
             change (unfinished (with_pc x w))
               with (match x with WFinished _ => 0 | _ => 1 end);
             cbv iota
         | |- context [unfinished (spawn_waiter ?x ?w)] =>
             change (unfinished (spawn_waiter x w)) with 1
         | H1 : w_pc ?w = _ |- _ =>
             pose proof (unfinished_pc w) as ?U; rewrite H1 in U;
             cbv iota in U; revert H1
         end; intros;
  match goal with
  | s : State |- _ =>
      pose proof (unfinished_bounds (w_accept s));
      pose proof (unfinished_bounds (w_request s));
      pose proof (unfinished_bounds (w_goroutine s))
  end;
  intuition (try congruence; try lia).

Lemma shutdown_inv_step (e : Event) (s : State) :
  shutdown_inv s -> shutdown_inv (step e s).
Proof.
  intros H.
  pose proof (shutdown_frame e s) as F.
  destruct e;
    try (destruct F as (F1 & F2 & F3 & F4);
         apply (shutdown_inv_ext s); assumption);
    clear F; unfold shutdown_inv in *.
  - event_cases s ltac:(shutdown_solver H).
  - event_cases s ltac:(shutdown_solver H).
  - unfold step. destruct (status s); try exact H.
    destruct (waiter_step_cases p pick_timeout s)
      as [-> | [(Hpc & ->) | (Hpc & b & _ & _ & ->)]]; [exact H | |].
    + destruct p; simpl_state; destruct (main s); shutdown_solver H.
    + unfold waiter_finish, allDoneWG_Done, log_Println.
      destruct p, b; simpl_state;
        destruct (wg_Add_panics (-1) (allDoneWG s)); simpl_state;
        destruct (main s); shutdown_solver H.
Qed.

Ltac waiter_kept_solver :=
  unfold waiter_kept; intros; simpl_state; repeat split; auto; intros;
  unfold doneWG_closed in *; simpl_state;
  repeat match goal with
         | H : w_inner _ = _ |- _ => rewrite H in *
         end;
  congruence.

Lemma waiter_frame (e : Event) (s : State) (p : Pool) :
  match e with
  | EvWaiter _ _ => True
  | EvMain => (forall sig, main s <> MainSpawnWaiters sig) -> waiter_kept p s (step e s)
  | _ => waiter_kept p s (step e s)
  end.
Proof.
  destruct e; try exact I.
  all: destruct p.
  all: event_cases s ltac:(waiter_kept_solver).
Qed.

Lemma log_step (e : Event) (s : State) (m : string) :
  In m (log s) -> In m (log (step e s)).
Proof.
  intros H. step_cases e s ltac:(cbn [In]; auto).
Qed.

Lemma waiter_inv_ext (p : Pool) (s s' : State) :
  waiter_kept p s s' ->
  now (world s) <= now (world s') ->
  (forall m, In m (log s) -> In m (log s')) ->
  waiter_inv p s -> waiter_inv p s'.
Proof.
  intros (Hpc & Ht & Hto & Hm & Hd) Hn Hl (I1 & I2 & I3).
  unfold waiter_inv, timed_out_at in *. cbv zeta in *.
  rewrite Hpc, Ht, Hto, Hm.
  repeat split.
  - apply I1; assumption.
  - destruct (I1 H) as ((_ & d & Hd1 & Hd2) & _). exists d. split; [assumption | lia].
  - apply Hl. apply I1. assumption.
  - intros H. apply Hd, I2, H.
  - exact I3.
Qed.

(** [allDoneWG.Add(3)] and the three [go] statements. *)
Lemma spawn_step (s : State) (sig : Signal) :
  status s = Running -> main s = MainSpawnWaiters sig ->
  step EvMain s =
    set_main (MainWaitAll sig)
      (set_w_goroutine (spawn_waiter (GoroutineGracePeriod (vars s)) goroutine_msg)
         (set_w_request (spawn_waiter (RequestGracePeriod (vars s)) request_msg)
            (set_w_accept (spawn_waiter 0 EmptyString)
               (set_allDoneWG (wg_Add 3 (allDoneWG s)) s)))).
Proof.
  intros H1 H2. unfold step, ListenAndServe_step. rewrite H1, H2. reflexivity.
Qed.

Lemma Pool_eq_dec (p q : Pool) : {p = q} + {p <> q}.
Proof. decide equality. Qed.

Lemma waiter_set_same (p : Pool) (x : Waiter) (s : State) :
  waiter p (set_waiter p x s) = x.
Proof. destruct p; reflexivity. Qed.

Lemma waiter_set_other (p q : Pool) (x : Waiter) (s : State) :
  p <> q -> waiter q (set_waiter p x s) = waiter q s.
Proof. destruct p, q; try reflexivity; congruence. Qed.

Lemma waiter_finish_same (p : Pool) (b : bool) (s : State) :
  waiter p (waiter_finish p b s) = with_pc (WFinished b) (waiter p s).
Proof.
  unfold waiter_finish, allDoneWG_Done, log_Println.
  destruct p, b; simpl_state;
    destruct (wg_Add_panics (-1) (allDoneWG s)); reflexivity.
Qed.

Lemma waiter_finish_other (p q : Pool) (b : bool) (s : State) :
  p <> q -> waiter q (waiter_finish p b s) = waiter q s.
Proof.
  unfold waiter_finish, allDoneWG_Done, log_Println.
  destruct p, q, b; simpl_state;
    destruct (wg_Add_panics (-1) (allDoneWG s)); try reflexivity; congruence.
Qed.

Lemma waiter_finish_log (p : Pool) (b : bool) (s : State) :
  log (waiter_finish p b s) = if b then w_msg (waiter p s) :: log s else log s.
Proof.
  unfold waiter_finish, allDoneWG_Done, log_Println.
  destruct p, b; simpl_state;
    destruct (wg_Add_panics (-1) (allDoneWG s)); reflexivity.
Qed.

Lemma waiter_finish_world (p : Pool) (b : bool) (s : State) :
  world (waiter_finish p b s) = world s.
Proof.
  unfold waiter_finish, allDoneWG_Done, log_Println.
  destruct p, b; simpl_state;
    destruct (wg_Add_panics (-1) (allDoneWG s)); reflexivity.
Qed.

Lemma set_waiter_world (p : Pool) (x : Waiter) (s : State) :
  world (set_waiter p x s) = world s /\ log (set_waiter p x s) = log s.
Proof. destruct p; split; reflexivity. Qed.

Lemma waiter_kept_refl (p : Pool) (s s' : State) :
  waiter p s' = waiter p s -> waiter_kept p s s'.
Proof. intros H. unfold waiter_kept. rewrite H. auto. Qed.

Lemma waiter_inv_step (p : Pool) (e : Event) (s : State) :
  waiter_inv p s -> waiter_inv p (step e s).
Proof.
  intros H.
  pose proof (waiter_frame e s p) as F.
  pose proof (now_step e s) as Hn.
  pose proof (log_step e s) as Hl.
  destruct e; try (apply (waiter_inv_ext p s); assumption).
  - (* the main goroutine *)
    destruct (status s) eqn:Hs;
      try (rewrite step_stopped by congruence; exact H).
    destruct (main s) eqn:Hm;
      try (apply (waiter_inv_ext p s); auto; apply F; congruence).
    rewrite (spawn_step s sig Hs Hm).
    unfold waiter_inv, timed_out_at.
    destruct p; simpl_state; repeat split; intros; discriminate.
  - (* a waiter *)
    clear F.
    destruct (Pool_eq_dec p0 p) as [-> | Hne].
    + (* this one *)
      clear Hn Hl. unfold step. destruct (status s); try exact H.
      destruct (waiter_step_cases p pick_timeout s)
        as [-> | [(Hpc & ->) | (Hpc & b & Hb1 & Hb2 & ->)]]; [exact H | |];
        destruct H as (I1 & I2 & I3); unfold waiter_inv, timed_out_at.
      * rewrite waiter_set_same. cbn [w_pc w_timer w_timeout with_pc with_timer with_inner].
        repeat split; try discriminate.
        intros d. destruct (Z.ltb_spec 0 (w_timeout (waiter p s))); [auto | discriminate].
      * rewrite waiter_finish_same, waiter_finish_log, waiter_finish_world.
        unfold doneWG_closed, timer_fired in *.
        cbn [w_pc w_timer w_timeout w_msg w_inner with_pc].
        repeat split.
        -- injection H as ->. specialize (Hb1 eq_refl).
           destruct (w_timer (waiter p s)) as [d |]; [eauto | discriminate].
        -- injection H as ->. specialize (Hb1 eq_refl).
           destruct (w_timer (waiter p s)) as [d |]; [| discriminate].
           exists d. split; [reflexivity | lia].
        -- injection H as ->. left. reflexivity.
        -- intros E. injection E as ->. auto.
        -- exact I3.
    + (* another one *)
      apply (waiter_inv_ext p s); auto.
      apply waiter_kept_refl.
      unfold step. destruct (status s); try reflexivity.
      destruct (waiter_step_cases p0 pick_timeout s)
        as [-> | [(Hpc & ->) | (Hpc & b & Hb1 & Hb2 & ->)]]; [reflexivity | |].
      * apply waiter_set_other, Hne.
      * apply waiter_finish_other, Hne.
Qed.

Lemma waiting_inv_step (p : Pool) (e : Event) (s : State) :
  waiting_inv p s -> waiting_inv p (step e s).
Proof.
  unfold waiting_inv. intros H.
  destruct p.
  all: step_cases e s
         ltac:(simpl_state; unfold wg_Add in *;
               repeat match goal with
                      | H1 : w_inner _ = _ |- _ => rewrite H1 in *
                      | H1 : (_ =? 0) = true |- _ => apply Z.eqb_eq in H1
                      | H1 : (_ =? 0) = false |- _ => apply Z.eqb_neq in H1
                      end;
               try congruence; auto; try (intros; lia)).
Qed.

(** [wg.Wait()] returns only on a counter that is zero: the goroutine
    calls [Wait] on it, or an [Add] or [Done] wakes it. *)
Lemma Wait_returns_step (p : Pool) (e : Event) (s : State) :
  waiting_inv p s ->
  inner_released (waiter p s) = false ->
  inner_released (waiter p (step e s)) = true ->
  Wait_returns p e s.
Proof.
  unfold waiting_inv, Wait_returns. intros Hw H H'.
  destruct (status s) eqn:Hs;
    try (rewrite step_stopped in H' by congruence; congruence).
  split; [reflexivity |].
  unfold inner_released in H.
  destruct (w_inner (waiter p s)) eqn:Hi; try discriminate.
  - (* no goroutine yet *)
    exfalso. revert H'. clear Hw.
    destruct p.
    all: step_cases e s
           ltac:(unfold inner_released; simpl_state;
                 repeat match goal with
                        | H1 : w_inner _ = _ |- _ => rewrite H1 in *
                        end;
                 congruence).
  - (* about to call [Wait] *)
    left. split; [reflexivity |]. clear Hw. revert H'.
    destruct p.
    all: step_cases e s
           ltac:(unfold inner_released; simpl_state;
                 repeat match goal with
                        | H1 : w_inner _ = _ |- _ => rewrite H1 in *
                        | H1 : (_ =? 0) = true |- _ => apply Z.eqb_eq in H1
                        end;
                 try congruence; auto).
  - (* blocked in [Wait] *)
    right. split; [reflexivity |]. split; [auto |]. clear Hw. revert H'.
    destruct p.
    all: step_cases e s
           ltac:(unfold inner_released, wg_Add; simpl_state;
                 repeat match goal with
                        | H1 : w_inner _ = _ |- _ => rewrite H1 in *
                        | H1 : (_ =? 0) = true |- _ => apply Z.eqb_eq in H1
                        end;
                 try congruence; auto).
Qed.

(** What a step may do to the timer of a waiter and to its grace
    period. *)
Lemma timer_step (p : Pool) (e : Event) (s : State) :
  (w_timer (waiter p (step e s)) = w_timer (waiter p s) /\
   w_timeout (waiter p (step e s)) = w_timeout (waiter p s)) \/
  w_timer (waiter p (step e s)) = None \/
  (exists pick d,
     e = EvWaiter p pick /\ timer_set_at p s d /\
     w_timer (waiter p (step e s)) = Some d /\
     w_timeout (waiter p (step e s)) = w_timeout (waiter p s)).
Proof.
  pose proof (waiter_frame e s p) as F.
  destruct (status s) eqn:Hs;
    try solve [left; rewrite step_stopped by congruence; auto].
  destruct e; try solve [left; destruct F as (_ & F1 & F2 & _); auto].
  - (* the main goroutine *)
    destruct (main s) eqn:Hm;
      try solve [left; destruct F as (_ & F1 & F2 & _); [congruence | auto]].
    right. left. rewrite (spawn_step s sig Hs Hm). destruct p; reflexivity.
  - (* a waiter *)
    clear F. rename p0 into q.
    destruct (Pool_eq_dec q p) as [-> | Hne].
    + unfold step. rewrite Hs.
      destruct (waiter_step_cases p pick_timeout s)
        as [-> | [(Hpc & ->) | (Hpc & b & _ & _ & ->)]]; [auto | |].
      * rewrite waiter_set_same.
        cbn [w_timer w_timeout with_pc with_timer with_inner].
        destruct (Z.ltb_spec 0 (w_timeout (waiter p s))); [| auto].
        right. right. exists pick_timeout, (time_Add (now (world s)) (w_timeout (waiter p s))).
        unfold timer_set_at. auto 10.
      * left. rewrite waiter_finish_same. split; reflexivity.
    + left. unfold step. rewrite Hs.
      destruct (waiter_step_cases q pick_timeout s)
        as [-> | [(Hpc & ->) | (Hpc & b & _ & _ & ->)]]; [auto | |].
      * rewrite waiter_set_other by assumption. auto.
      * rewrite waiter_finish_other by assumption. auto.
Qed.

Lemma spawn_inv_step (e : Event) (s : State) :
  spawn_inv s -> spawn_inv (step e s).
Proof.
  unfold spawn_inv. intros H.
  step_cases e s ltac:(intros; try discriminate; eauto).
Qed.

(** A waiter exists only once [ListenAndServe] has started it, with its
    grace period. *)
Lemma spawn_cases (p : Pool) (e : Event) (s : State) :
  spawn_inv s ->
  (w_timeout (waiter p (step e s)) = w_timeout (waiter p s) /\
   (w_pc (waiter p s) = WAbsent -> w_pc (waiter p (step e s)) = WAbsent)) \/
  (e = EvMain /\ about_to_spawn s /\
   w_timeout (waiter p (step e s)) = grace_period p (vars s)).
Proof.
  intros Hinv.
  pose proof (waiter_frame e s p) as F.
  destruct (status s) eqn:Hs;
    try solve [left; rewrite step_stopped by congruence; auto].
  destruct e;
    try solve [left; destruct F as (F0 & _ & F2 & _); split; [auto | congruence]].
  - destruct (main s) eqn:Hm;
      try solve [left; destruct F as (F0 & _ & F2 & _);
                 [congruence | split; [auto | congruence]]].
    right. split; [reflexivity |]. split.
    + unfold about_to_spawn. eauto.
    + rewrite (spawn_step s sig Hs Hm). destruct p; reflexivity.
  - clear F. rename p0 into q. left.
    unfold step. rewrite Hs. unfold timeoutWaitGroup_step.
    destruct (Pool_eq_dec q p) as [-> | Hne].
    + destruct (w_pc (waiter p s)) eqn:Hpc;
        [split; [reflexivity | congruence] | | | split; [reflexivity | congruence]].
      * rewrite waiter_set_same. split; [reflexivity | discriminate].
      * split; [| discriminate].
        cbv zeta.
        destruct (doneWG_closed (waiter p s)), (timer_fired (waiter p s) (now (world s)));
          try rewrite waiter_finish_same; reflexivity.
    + destruct (waiter_step_cases q pick_timeout s)
        as [E | [(Hpc & E) | (Hpc & b & _ & _ & E)]];
        unfold timeoutWaitGroup_step in E; rewrite E.
      * auto.
      * rewrite waiter_set_other by assumption. auto.
      * rewrite waiter_finish_other by assumption. auto.
Qed.

(** Once [Shutdown] is closed, [acceptLoop] calls [l.Accept()] at most
    for the iteration in progress. *)
Lemma accept_bound_step (e : Event) (s : State) :
  Shutdown s = true ->
  (accept_calls (step e s) + pending_accept (loop (step e s)) <=
   accept_calls s + pending_accept (loop s))%nat.
Proof.
  intros H.
  step_cases e s
    ltac:(unfold accept_calls, count_calls; simpl_state;
          cbn [filter is_accept List.length pending_accept];
          try congruence; lia).
Qed.

Lemma accept_bound_run (es : list Event) :
  forall s, Shutdown s = true ->
    (accept_calls (run es s) + pending_accept (loop (run es s)) <=
     accept_calls s + pending_accept (loop s))%nat.
Proof.
  induction es as [| e es IH]; intros s H; cbn [run]; [lia |].
  pose proof (accept_bound_step e s H).
  pose proof (IH (step e s) (Shutdown_step e s H)). lia.
Qed.

Lemma accept_calls_step (e : Event) (s : State) :
  (accept_calls s <= accept_calls (step e s))%nat.
Proof.
  step_cases e s
    ltac:(unfold accept_calls, count_calls; simpl_state;
          cbn [filter is_accept List.length]; lia).
Qed.

(* ================================================================== *)
(** ** Reachable states *)

Section Reachable.
Variables (v : Vars) (ln : net_Listener) (e : Env) (t0 : Time).

Lemma request_inv_after (es : list Event) : request_inv (after es v ln e t0).
Proof.
  unfold after. apply run_invariant; [exact request_inv_step | reflexivity].
Qed.

Lemma accept_inv_after (es : list Event) : accept_inv (after es v ln e t0).
Proof.
  unfold after. apply run_invariant; [exact accept_inv_step | reflexivity].
Qed.

Lemma returned_inv_after (es : list Event) : returned_inv (after es v ln e t0).
Proof.
  unfold after. apply run_invariant; [exact returned_inv_step | discriminate].
Qed.

Lemma shutdown_inv_after (es : list Event) : shutdown_inv (after es v ln e t0).
Proof.
  unfold after. apply run_invariant; [exact shutdown_inv_step |].
  cbn. unfold before_waiters. cbn. auto.
Qed.

Lemma waiter_inv_after (p : Pool) (es : list Event) :
  waiter_inv p (after es v ln e t0).
Proof.
  unfold after. apply run_invariant; [exact (waiter_inv_step p) |].
  unfold waiter_inv. destruct p; cbn; repeat split; discriminate.
Qed.

Lemma env_after (es : list Event) : env (world (after es v ln e t0)) = e.
Proof.
  unfold after. apply (run_invariant (fun s => env (world s) = e)); [| reflexivity].
  intros ev s H. rewrite env_step. exact H.
Qed.

End Reachable.

Section Origins.
Variables (v : Vars) (ln : net_Listener) (e : Env) (t0 : Time).

Lemma after_snoc (es : list Event) (ev : Event) :
  after (es ++ [ev]) v ln e t0 = step ev (after es v ln e t0).
Proof. unfold after. apply run_snoc. Qed.

Lemma waiting_inv_after (p : Pool) (es : list Event) :
  waiting_inv p (after es v ln e t0).
Proof.
  unfold after. apply run_invariant; [exact (waiting_inv_step p) |].
  unfold waiting_inv. destruct p; discriminate.
Qed.

Lemma spawn_inv_after (es : list Event) : spawn_inv (after es v ln e t0).
Proof.
  unfold after. apply run_invariant; [exact spawn_inv_step |].
  unfold spawn_inv. discriminate.
Qed.

(** A goroutine that is past [wg.Wait()] got there at some event of the
    run, on a counter that was zero. *)
Lemma Wait_returned_after (p : Pool) (es : list Event) :
  inner_released (waiter p (after es v ln e t0)) = true ->
  exists es1 ev es2,
    es = es1 ++ ev :: es2 /\ Wait_returns p ev (after es1 v ln e t0).
Proof.
  induction es as [| x es IH] using rev_ind.
  - destruct p; discriminate.
  - rewrite after_snoc. intros H.
    destruct (inner_released (waiter p (after es v ln e t0))) eqn:Hprev.
    + destruct (IH eq_refl) as (es1 & ev & es2 & -> & Hw).
      exists es1, ev, (es2 ++ [x]). split; [| exact Hw].
      rewrite <- app_assoc. reflexivity.
    + exists es, x, []. split; [reflexivity |].
      apply Wait_returns_step; auto using waiting_inv_after.
Qed.

(** A timer that exists was created by the waiter's first action, for
    the grace period the waiter still has. *)
Lemma timer_origin (p : Pool) (es : list Event) (d : Time) :
  w_timer (waiter p (after es v ln e t0)) = Some d ->
  exists es1 pick es2,
    es = es1 ++ EvWaiter p pick :: es2 /\
    timer_set_at p (after es1 v ln e t0) d /\
    w_timeout (waiter p (after es v ln e t0)) =
      w_timeout (waiter p (after es1 v ln e t0)).
Proof.
  induction es as [| x es IH] using rev_ind.
  - destruct p; discriminate.
  - rewrite after_snoc. intros H.
    destruct (timer_step p x (after es v ln e t0))
      as [(Ht & Hto) | [Hn | (pick & d' & -> & Hset & Ht & Hto)]].
    + rewrite Ht in H. destruct (IH H) as (es1 & pick & es2 & -> & Hs & Hk).
      exists es1, pick, (es2 ++ [x]). split; [| split; [exact Hs | congruence]].
      rewrite <- app_assoc. reflexivity.
    + congruence.
    + exists es, pick, []. split; [reflexivity |].
      split; [congruence | exact Hto].
Qed.

(** A waiter that exists was started by [ListenAndServe], after
    [close(Shutdown)], with the grace period of its pool at that
    moment. *)
Lemma waiter_origin (p : Pool) (es : list Event) :
  w_pc (waiter p (after es v ln e t0)) <> WAbsent ->
  exists es0 es1,
    es = es0 ++ EvMain :: es1 /\
    about_to_spawn (after es0 v ln e t0) /\
    w_timeout (waiter p (after es v ln e t0)) =
      grace_period p (vars (after es0 v ln e t0)).
Proof.
  induction es as [| x es IH] using rev_ind.
  - destruct p; intros H; exfalso; apply H; reflexivity.
  - rewrite after_snoc. intros H.
    destruct (spawn_cases p x (after es v ln e t0) (spawn_inv_after es))
      as [(Hto & Hab) | (-> & Hsp & Hto)].
    + destruct IH as (es0 & es1 & -> & Hs & Hk); [auto |].
      exists es0, (es1 ++ [x]). split; [| split; [exact Hs | congruence]].
      rewrite <- app_assoc. reflexivity.
    + exists es, []. auto.
Qed.

(** A waiter that took the timeout branch: [ListenAndServe] started it
    with a positive grace period; its first action set the timer to that
    grace period from then; the timer has fired. *)
Lemma timed_out_origin (p : Pool) (es : list Event) :
  w_pc (waiter p (after es v ln e t0)) = WFinished true ->
  exists es0 es1 pick es2 d,
    es = (es0 ++ EvMain :: es1) ++ EvWaiter p pick :: es2 /\
    about_to_spawn (after es0 v ln e t0) /\
    0 < grace_period p (vars (after es0 v ln e t0)) /\
    timer_set_at p (after (es0 ++ EvMain :: es1) v ln e t0) d /\
    d = time_Add (now (world (after (es0 ++ EvMain :: es1) v ln e t0)))
          (grace_period p (vars (after es0 v ln e t0))) /\
    w_timer (waiter p (after es v ln e t0)) = Some d /\
    d <= now (world (after es v ln e t0)).
Proof.
  intros Hpc.
  destruct (waiter_inv_after v ln e t0 p es) as (I1 & _ & _).
  destruct (I1 Hpc) as ((Hpos & d & Hd & Hle) & _).
  destruct (timer_origin p es d Hd) as (es' & pick & es2 & -> & Hset & Hk).
  destruct Hset as (Hs & Hst & Hp & Heq).
  destruct (waiter_origin p es') as (es0 & es1 & -> & Hsp & Hg);
    [congruence |].
  exists es0, es1, pick, es2, d.
  split; [reflexivity |]. split; [exact Hsp |].
  split; [congruence |].
  split; [unfold timer_set_at; auto |].
  split; [congruence |]. auto.
Qed.
End Origins.

(** In every reachable state, [requestWG] is the number of connections
    accepted and counted minus the number of handler invocations that
    ended; it is zero exactly when the two agree. *)
Lemma request_counter_accounting (v : Vars) (ln : net_Listener) (e : Env)
  (t0 : Time) (es : list Event) :
  requestWG (after es v ln e t0) =
    Z.of_nat (accepted (after es v ln e t0))
    - pending_add (loop (after es v ln e t0))
    - Z.of_nat (finished (after es v ln e t0)).
Proof. exact (request_inv_after v ln e t0 es). Qed.

(** C1.  One connection is accepted and serves two requests, one after
    the other; both handlers return.  The counter ends at -1 with no
    handler running: the second deferred [Done] meets a zero counter.
    And after a connection that sends no request the counter stays at 1
    with no handler left to decrement it. *)
Theorem C1_request_counter_unbalanced :
  accepted (after (accept_one ++ one_request 7%nat ++ one_request 7%nat)
              default_vars tcp_listener env_ok 0) = 1%nat /\
  running (after (accept_one ++ one_request 7%nat ++ one_request 7%nat)
             default_vars tcp_listener env_ok 0) = [] /\
  finished (after (accept_one ++ one_request 7%nat ++ one_request 7%nat)
              default_vars tcp_listener env_ok 0) = 2%nat /\
  requestWG (after (accept_one ++ one_request 7%nat ++ one_request 7%nat)
               default_vars tcp_listener env_ok 0) = -1 /\
  accepted (after accept_one default_vars tcp_listener env_ok 0) = 1%nat /\
  running (after accept_one default_vars tcp_listener env_ok 0) = [] /\
  finished (after accept_one default_vars tcp_listener env_ok 0) = 0%nat /\
  requestWG (after accept_one default_vars tcp_listener env_ok 0) = 1.
Proof. repeat split; vm_compute; reflexivity. Qed.

(** When every accepted connection has been counted and exactly as many
    handler invocations ended as connections were accepted, the counter
    is zero, whether the handlers returned or panicked. *)
Lemma request_counter_balanced (v : Vars) (ln : net_Listener) (e : Env)
  (t0 : Time) (es : list Event) :
  pending_add (loop (after es v ln e t0)) = 0 ->
  finished (after es v ln e t0) = accepted (after es v ln e t0) ->
  requestWG (after es v ln e t0) = 0.
Proof.
  intros H1 H2. pose proof (request_inv_after v ln e t0 es) as H.
  unfold request_inv in H. rewrite H, H1, H2. lia.
Qed.

(* ================================================================== *)
(** ** The accept loop and the shutdown signal *)

(** At the top of the loop with [Shutdown] closed, [acceptLoop] returns
    without touching the listener. *)
Lemma select_closed_returns (s : State) :
  status s = Running -> loop s = AtSelect -> Shutdown s = true ->
  acceptWG s = 1 ->
  loop (step EvLoop s) = LoopReturned /\ world (step EvLoop s) = world s /\
  status (step EvLoop s) = Running /\ acceptWG (step EvLoop s) = 0.
Proof.
  intros Hs Hl Hsh Hwg.
  unfold step, acceptLoop_step. rewrite Hs, Hl, Hsh.
  unfold acceptLoop_return, pool_Add_or_crash, pool_Add, wg_Add_panics, wg_Add.
  cbn [pool_counter]. rewrite Hwg. cbn [Z.add Z.ltb Z.compare Z.pos_sub Z.eqb].
  cbn [set_pool_counter waiter].
  destruct (w_inner (w_accept (set_acceptWG 0 s))); cbn; auto.
Qed.

(** C4.  Along every run: once [Shutdown] is closed, the top-of-loop
    check makes [acceptLoop] return without calling the listener, and
    from then on the number of [l.Accept()] calls grows by at most the
    one call of the iteration that was in progress (by none when the
    loop stands at its top-of-loop check or has stopped).  Conversely a
    loop that has returned saw [Shutdown] closed or an [Accept] error
    that [goagain.IsErrClosing] recognises: while the signal is open and
    the listener has not been reported closed, it has not returned. *)
Theorem C4_shutdown_stops_accept_loop :
  forall (v : Vars) (ln : net_Listener) (e : Env) (t0 : Time) (es : list Event),
    (Shutdown (after es v ln e t0) = true ->
       (status (after es v ln e t0) = Running ->
        loop (after es v ln e t0) = AtSelect ->
        loop (step EvLoop (after es v ln e t0)) = LoopReturned /\
        world (step EvLoop (after es v ln e t0)) = world (after es v ln e t0)) /\
       (forall es',
          (accept_calls (run es' (after es v ln e t0)) <=
           accept_calls (after es v ln e t0)
           + pending_accept (loop (after es v ln e t0)))%nat) /\
       (forall es',
          Shutdown (run es' (after es v ln e t0)) = true)) /\
    (Shutdown (after es v ln e t0) = false ->
     closing_reported e (history (world (after es v ln e t0))) = false ->
     loop (after es v ln e t0) <> LoopReturned).
Proof.
  intros v ln e t0 es. split.
  - intros Hsh. repeat split.
    + pose proof (accept_inv_after v ln e t0 es) as Ha.
      unfold accept_inv in Ha. rewrite H0 in Ha.
      apply (select_closed_returns _ H H0 Hsh Ha).
    + pose proof (accept_inv_after v ln e t0 es) as Ha.
      unfold accept_inv in Ha. rewrite H0 in Ha.
      apply (select_closed_returns _ H H0 Hsh Ha).
    + intros es'. pose proof (accept_bound_run es' _ Hsh). lia.
    + intros es'. apply (run_invariant (fun s => Shutdown s = true));
        [exact Shutdown_step | exact Hsh].
  - intros Hopen Hnot Hret.
    destruct (returned_inv_after v ln e t0 es Hret) as [H | H].
    + congruence.
    + rewrite env_after in H. congruence.
Qed.

(** C4, on a run: the signal arrives while [Accept] is pending; that
    call times out, and the next check at the top of the loop returns. *)
Lemma C4_witness :
  loop (step EvLoop
          (after [EvLoop; EvLoop; EvSignal SIGTERM None; EvMain; EvLoop]
             default_vars tcp_listener env_idle 0)) = LoopReturned /\
  accept_calls
    (run [EvLoop; EvLoop; EvLoop; EvTick Second; EvLoop]
       (after [EvLoop; EvLoop; EvSignal SIGTERM None; EvMain; EvLoop]
          default_vars tcp_listener env_idle 0)) = 1%nat.
Proof.
  destruct (C4_shutdown_stops_accept_loop default_vars tcp_listener env_idle 0
              [EvLoop; EvLoop; EvSignal SIGTERM None; EvMain; EvLoop])
    as [H _].
  destruct (H eq_refl) as (H1 & H2 & _).
  split.
  - exact (proj1 (H1 eq_refl eq_refl)).
  - pose proof (H2 [EvLoop; EvLoop; EvLoop; EvTick Second; EvLoop]) as H3.
    apply Nat.le_antisymm; [exact H3 |].
    vm_compute. apply le_n.
Defined.

(* ================================================================== *)
(** ** Errors in the accept loop *)

(** [srv.Serve] on the fresh adapter always returns, with an error. *)
Lemma serve_result_total (s : State) (c : net_Conn) :
  exists x, serve_result s c = Some x /\
    serve_err x =
      Returned match reply_err (env (world s) (history (world s)) CServeSetup) with
               | None => errSingleListen
               | Some err => err
               end.
Proof.
  unfold serve_result. rewrite http_Serve_fresh.
  destruct (reply_err _); eexists; split; reflexivity.
Qed.

(** The loop's reaction to what [srv.Serve] returned. *)
Lemma step_AtServe (s : State) (c : net_Conn) (x : ServeResult) (err : error) :
  status s = Running -> loop s = AtServe c ->
  serve_result s c = Some x -> serve_err x = Returned err ->
  (is_errSingleListen err = true ->
   loop (step EvLoop s) = AtSelect /\ status (step EvLoop s) = Running /\
   log (step EvLoop s) = log s) /\
  (is_errSingleListen err = false ->
   loop (step EvLoop s) = LoopFatal /\ status (step EvLoop s) = Exited /\
   log (step EvLoop s) = error_text err :: log s).
Proof.
  intros Hs Hl Hx He.
  unfold step. rewrite Hs. unfold acceptLoop_step. rewrite Hl.
  unfold serve_result in Hx.
  destruct (http_Serve serve_fuel (vars s) (new_singleListener (listener s) c)
              (world s)) as [r w].
  cbn [fst] in Hx. subst r. rewrite He.
  unfold serve_error_verdict.
  split; intros ->; cbn; auto.
Qed.

(** The loop's reaction to an error of [l.Accept()]. *)
Lemma step_AtAccept_error (s : State) (err : error) :
  status s = Running -> loop s = AtAccept -> acceptWG s = 1 ->
  reply_err (env (world s) (history (world s)) CListenerAccept) = Some err ->
  match accept_error_verdict err with
  | Continue =>
      loop (step EvLoop s) = AtSelect /\ status (step EvLoop s) = Running /\
      log (step EvLoop s) = log s
  | Return =>
      loop (step EvLoop s) = LoopReturned /\ status (step EvLoop s) = Running /\
      log (step EvLoop s) = log s
  | Fatal e' =>
      e' = err /\ loop (step EvLoop s) = LoopFatal /\
      status (step EvLoop s) = Exited /\
      log (step EvLoop s) = error_text err :: log s
  | Panic =>
      loop (step EvLoop s) = LoopPanicked /\ status (step EvLoop s) = Crashed
  end.
Proof.
  intros Hs Hl Hwg He.
  unfold step. rewrite Hs. unfold acceptLoop_step. rewrite Hl.
  unfold listener_Accept, bind, call, ret. rewrite He.
  unfold accept_error_verdict.
  destruct (IsErrClosing err).
  - unfold apply_verdict, acceptLoop_return, pool_Add_or_crash, pool_Add,
      wg_Add_panics, wg_Add.
    simpl_state. rewrite Hwg. cbn [Z.add Z.ltb Z.compare Z.pos_sub Z.eqb].
    simpl_state.
    destruct (w_inner (w_accept s)); simpl_state; auto.
  - destruct err as [| [|] txt | txt]; cbn; auto.
Qed.

(** C6.  In a running process whose loop is about to call [l.Accept()]
    and gets error [err]: a listener-closed error makes the loop return,
    the process keeps running and nothing is logged; otherwise a
    deadline-exceeded error (a [net.OpError] whose [Timeout()] holds)
    sends the loop back to its top; any other error ends the process, by
    [log.Fatalln] or by the panic of the failed type assertion.  When
    the loop calls [srv.Serve] and it returns [errSingleListen], the
    loop goes back to its top and nothing is logged; when it returns any
    other error, [log.Fatalln] ends the process. *)
Theorem C6_accept_loop_error_classification :
  forall (v : Vars) (ln : net_Listener) (e : Env) (t0 : Time) (es : list Event),
    status (after es v ln e t0) = Running ->
    (loop (after es v ln e t0) = AtAccept ->
     forall err,
       reply_err (e (history (world (after es v ln e t0))) CListenerAccept)
         = Some err ->
       (IsErrClosing err = true ->
        loop (step EvLoop (after es v ln e t0)) = LoopReturned /\
        status (step EvLoop (after es v ln e t0)) = Running /\
        log (step EvLoop (after es v ln e t0)) = log (after es v ln e t0)) /\
       (IsErrClosing err = false -> (exists txt, err = OpError true txt) ->
        loop (step EvLoop (after es v ln e t0)) = AtSelect /\
        status (step EvLoop (after es v ln e t0)) = Running) /\
       (IsErrClosing err = false -> (forall txt, err <> OpError true txt) ->
        status (step EvLoop (after es v ln e t0)) = Exited \/
        status (step EvLoop (after es v ln e t0)) = Crashed)) /\
    (forall c, loop (after es v ln e t0) = AtServe c ->
     exists x err,
       serve_result (after es v ln e t0) c = Some x /\
       serve_err x = Returned err /\
       (err = errSingleListen ->
        loop (step EvLoop (after es v ln e t0)) = AtSelect /\
        status (step EvLoop (after es v ln e t0)) = Running /\
        log (step EvLoop (after es v ln e t0)) = log (after es v ln e t0)) /\
       (err <> errSingleListen ->
        loop (step EvLoop (after es v ln e t0)) = LoopFatal /\
        status (step EvLoop (after es v ln e t0)) = Exited)).
Proof.
  intros v ln e t0 es Hs. split.
  - intros Hl err He.
    pose proof (accept_inv_after v ln e t0 es) as Ha.
    unfold accept_inv in Ha. rewrite Hl in Ha.
    assert (He' : reply_err (env (world (after es v ln e t0))
                               (history (world (after es v ln e t0)))
                               CListenerAccept) = Some err)
      by (rewrite env_after; exact He).
    pose proof (step_AtAccept_error _ err Hs Hl Ha He') as H.
    unfold accept_error_verdict in H.
    repeat split.
    + rewrite H0 in H. apply H.
    + rewrite H0 in H. apply H.
    + rewrite H0 in H. apply H.
    + destruct H1 as [txt ->]. rewrite H0 in H. apply H.
    + destruct H1 as [txt ->]. rewrite H0 in H. apply H.
    + intros Hc Hnt. rewrite Hc in H.
      destruct err as [| [|] txt | txt].
      * right. apply H.
      * exfalso. apply (Hnt txt). reflexivity.
      * left. apply H.
      * right. apply H.
  - intros c Hl.
    destruct (serve_result_total (after es v ln e t0) c) as (x & Hx & Hr).
    exists x. eexists. split; [exact Hx |]. split; [exact Hr |].
    destruct (step_AtServe _ c x _ Hs Hl Hx Hr) as [H1 H2].
    split.
    + intros Heq. apply H1. rewrite Heq. reflexivity.
    + intros Hne.
      assert (Hf : is_errSingleListen
                     match reply_err (env (world (after es v ln e t0))
                                        (history (world (after es v ln e t0)))
                                        CServeSetup) with
                     | Some err => err
                     | None => errSingleListen
                     end = false).
      { destruct (match reply_err _ with Some err => err | None => _ end);
          [congruence | reflexivity | reflexivity]. }
      destruct (H2 Hf) as (A & B & _). auto.
Qed.

(** C6, on a run: nothing arrives within the deadline of [l.Accept()];
    the loop goes back to its top. *)
Lemma C6_witness :
  loop (step EvLoop (after [EvLoop; EvLoop] default_vars tcp_listener env_idle 0))
    = AtSelect.
Proof.
  destruct (C6_accept_loop_error_classification default_vars tcp_listener
              env_idle 0 [EvLoop; EvLoop] eq_refl) as [H _].
  destruct (H eq_refl io_timeout eq_refl) as (_ & H2 & _).
  apply H2; [reflexivity | exists "i/o timeout"%string; reflexivity].
Defined.

(* ================================================================== *)
(** ** The shutdown sequence *)

Lemma all_finished_of_zero (s : State) :
  waiters_started s -> allDoneWG s = 0 ->
  forall p, waiter_finished (waiter p s) = true.
Proof.
  intros (_ & _ & _ & H) Hz p. rewrite Hz in H.
  unfold unfinished_waiters, unfinished in H.
  destruct p; cbn [waiter];
    destruct (waiter_finished (w_accept s)),
             (waiter_finished (w_request s)),
             (waiter_finished (w_goroutine s)); auto; lia.
Qed.

Lemma past_wait_all_finished (s : State) :
  shutdown_inv s ->
  main_past_wait s = true \/ (0 < count_calls is_exec (world s))%nat ->
  forall p, waiter_finished (waiter p s) = true.
Proof.
  unfold shutdown_inv, main_past_wait, before_waiters.
  intros H Hp.
  destruct (main s);
    try (destruct Hp as [Hp | Hp]; [discriminate | exfalso; intuition lia]).
  - apply all_finished_of_zero; apply H.
  - apply all_finished_of_zero; apply H.
  - apply all_finished_of_zero; apply H.
  - destruct H as [H | H]; [| apply all_finished_of_zero; apply H].
    destruct Hp as [Hp | Hp]; [discriminate | exfalso; intuition lia].
Qed.

Lemma doneWG_closed_released (w : Waiter) :
  doneWG_closed w = true -> inner_released w = true.
Proof.
  unfold doneWG_closed, inner_released. destruct (w_inner w); auto.
Qed.

(** A waiter in its [select] keeps [allDoneWG] positive. *)
Lemma selecting_positive (s : State) (p : Pool) :
  shutdown_inv s -> w_pc (waiter p s) = WSelect -> 1 <= allDoneWG s.
Proof.
  unfold shutdown_inv, before_waiters, waiters_started, unfinished_waiters.
  intros H Hpc.
  pose proof (unfinished_bounds (w_accept s)).
  pose proof (unfinished_bounds (w_request s)).
  pose proof (unfinished_bounds (w_goroutine s)).
  pose proof (unfinished_pc (waiter p s)) as U. rewrite Hpc in U.
  assert (Hne : w_pc (waiter p s) <> WAbsent) by congruence.
  assert (Hsum : waiters_started s -> 1 <= allDoneWG s).
  { unfold waiters_started, unfinished_waiters. intros (_ & _ & _ & ->).
    destruct p; cbn [waiter] in U; lia. }
  assert (Hpre : before_waiters s -> False).
  { unfold before_waiters. intros (A & B & C & _).
    destruct p; cbn [waiter] in Hne; congruence. }
  unfold waiters_started, unfinished_waiters, before_waiters in *.
  destruct (main s); intuition.
Qed.

(** The timeout branch of the [select]: a line is logged and
    [allDoneWG.Done()] is called; nothing else changes. *)
Lemma timeout_branch (s : State) (p : Pool) (pick : bool) :
  status s = Running -> 1 <= allDoneWG s ->
  w_pc (waiter p s) = WSelect ->
  doneWG_closed (waiter p s) = false ->
  timer_fired (waiter p s) (now (world s)) = true ->
  step (EvWaiter p pick) s =
    set_allDoneWG (allDoneWG s - 1)
      (set_waiter p (with_pc (WFinished true) (waiter p s))
         (set_log (w_msg (waiter p s) :: log s) s)).
Proof.
  intros Hs Hd Hpc Hc Ht.
  unfold step, timeoutWaitGroup_step. rewrite Hs. cbv zeta.
  rewrite Hpc, Hc, Ht.
  unfold waiter_finish, allDoneWG_Done, log_Println, wg_Add_panics, wg_Done, wg_Add.
  destruct p; simpl_state;
    (destruct (Z.ltb_spec (allDoneWG s + -1) 0); [lia | reflexivity]).
Qed.

(** [allDoneWG.Wait()] returns when the three waiters have finished, and
    blocks while one of them has not. *)
Lemma wait_step (s : State) (sig : Signal) :
  shutdown_inv s -> status s = Running -> main s = MainWaitAll sig ->
  ((forall p, waiter_finished (waiter p s) = true) ->
   main (step EvMain s) = MainExec sig) /\
  (forall p, waiter_finished (waiter p s) = false -> step EvMain s = s).
Proof.
  unfold shutdown_inv. intros H Hs Hm. rewrite Hm in H.
  destruct H as ((_ & _ & _ & Hsum) & _).
  unfold step, ListenAndServe_step. rewrite Hs, Hm.
  unfold unfinished_waiters, unfinished in Hsum.
  split.
  - intros Hall.
    pose proof (Hall PAccept) as Ha. pose proof (Hall PRequest) as Hr.
    pose proof (Hall PGoroutine) as Hg. cbn [waiter] in Ha, Hr, Hg.
    rewrite Ha, Hr, Hg in Hsum. rewrite Hsum. reflexivity.
  - intros p Hp.
    destruct (Z.eqb_spec (allDoneWG s) 0) as [Hz | Hz]; [| reflexivity].
    exfalso.
    destruct p; cbn [waiter] in Hp; rewrite Hp in Hsum;
      destruct (waiter_finished (w_accept s)),
               (waiter_finished (w_request s)),
               (waiter_finished (w_goroutine s)); try discriminate; lia.
Qed.

(** The [select] of a waiter without a timer blocks while [doneWG] is
    open. *)
Lemma select_blocks (s : State) (p : Pool) (pick : bool) :
  w_pc (waiter p s) = WSelect -> w_timer (waiter p s) = None ->
  doneWG_closed (waiter p s) = false ->
  step (EvWaiter p pick) s = s.
Proof.
  intros Hpc Ht Hd. unfold step, timeoutWaitGroup_step, timer_fired.
  cbv zeta. rewrite Hpc, Ht, Hd. destruct (status s); reflexivity.
Qed.

(** [wg.Wait()] blocks on a counter that is not zero, and nothing but a
    change of the counter ends it. *)
Lemma Wait_blocks (s : State) (p : Pool) :
  status s = Running ->
  (w_inner (waiter p s) = InnerStart -> pool_counter p s <> 0 ->
   w_inner (waiter p (step (EvInner p) s)) = InnerWaiting) /\
  (w_inner (waiter p s) = InnerWaiting -> step (EvInner p) s = s).
Proof.
  intros Hs. unfold step, inner_step. rewrite Hs. cbv zeta. split.
  - intros Hi Hc. rewrite Hi.
    destruct (Z.eqb_spec (pool_counter p s) 0); [contradiction |].
    rewrite waiter_set_same. reflexivity.
  - intros Hi. rewrite Hi. reflexivity.
Qed.

(** C5.  Along every run: when [allDoneWG.Wait()] has returned, or
    [goagain.Exec] has been called, each of the three waiters has
    finished.  A waiter that has finished did so by drain or by timeout.
    By drain: its [doneWG] is closed, and at some event of the run the
    [wg.Wait()] of the goroutine it started returned, on a counter that
    was zero when the goroutine called [Wait] or that the event brought
    to zero while the goroutine was blocked.  By timeout:
    [ListenAndServe] started the waiter after [close(Shutdown)] with a
    positive grace period, the value of the pool's variable then; the
    waiter's first action set its timer to that grace period from the
    time of that action; the timer has fired, so the grace period has
    elapsed; and its message is in the log.  The timeout branch only
    logs the message and calls [allDoneWG.Done()]: the pool counters,
    the handlers in progress, the connections being served, the accept
    loop and the outside world are left as they are.
    [allDoneWG.Wait()] blocks while a waiter has not finished and returns
    once the three have; after it, [goagain.Exec] is called for SIGUSR2
    and for no other signal. *)
Theorem C5_shutdown_returns_after_all_waits :
  forall (v : Vars) (ln : net_Listener) (e : Env) (t0 : Time) (es : list Event),
    (main_past_wait (after es v ln e t0) = true \/
     (0 < count_calls is_exec (world (after es v ln e t0)))%nat ->
     forall p, waiter_finished (waiter p (after es v ln e t0)) = true) /\
    (forall p, waiter_finished (waiter p (after es v ln e t0)) = true ->
       (waiter_timed_out (waiter p (after es v ln e t0)) = false /\
        doneWG_closed (waiter p (after es v ln e t0)) = true /\
        exists es1 ev es2,
          es = es1 ++ ev :: es2 /\
          Wait_returns p ev (after es1 v ln e t0)) \/
       (waiter_timed_out (waiter p (after es v ln e t0)) = true /\
        timed_out_at (waiter p (after es v ln e t0))
          (now (world (after es v ln e t0))) /\
        In (w_msg (waiter p (after es v ln e t0))) (log (after es v ln e t0)) /\
        exists es0 es1 pick es2 d,
          es = (es0 ++ EvMain :: es1) ++ EvWaiter p pick :: es2 /\
          about_to_spawn (after es0 v ln e t0) /\
          0 < grace_period p (vars (after es0 v ln e t0)) /\
          timer_set_at p (after (es0 ++ EvMain :: es1) v ln e t0) d /\
          d = time_Add (now (world (after (es0 ++ EvMain :: es1) v ln e t0)))
                (grace_period p (vars (after es0 v ln e t0))) /\
          w_timer (waiter p (after es v ln e t0)) = Some d /\
          d <= now (world (after es v ln e t0)))) /\
    (forall p pick,
       status (after es v ln e t0) = Running ->
       w_pc (waiter p (after es v ln e t0)) = WSelect ->
       doneWG_closed (waiter p (after es v ln e t0)) = false ->
       timer_fired (waiter p (after es v ln e t0))
         (now (world (after es v ln e t0))) = true ->
       log (step (EvWaiter p pick) (after es v ln e t0)) =
         w_msg (waiter p (after es v ln e t0)) :: log (after es v ln e t0) /\
       w_pc (waiter p (step (EvWaiter p pick) (after es v ln e t0))) =
         WFinished true /\
       allDoneWG (step (EvWaiter p pick) (after es v ln e t0)) =
         allDoneWG (after es v ln e t0) - 1 /\
       status (step (EvWaiter p pick) (after es v ln e t0)) = Running /\
       (forall q, pool_counter q (step (EvWaiter p pick) (after es v ln e t0)) =
                  pool_counter q (after es v ln e t0)) /\
       running (step (EvWaiter p pick) (after es v ln e t0)) =
         running (after es v ln e t0) /\
       serving (step (EvWaiter p pick) (after es v ln e t0)) =
         serving (after es v ln e t0) /\
       loop (step (EvWaiter p pick) (after es v ln e t0)) =
         loop (after es v ln e t0) /\
       world (step (EvWaiter p pick) (after es v ln e t0)) =
         world (after es v ln e t0)) /\
    (forall sig,
       status (after es v ln e t0) = Running ->
       main (after es v ln e t0) = MainWaitAll sig ->
       ((forall p, waiter_finished (waiter p (after es v ln e t0)) = true) ->
        main (step EvMain (after es v ln e t0)) = MainExec sig) /\
       (forall p, waiter_finished (waiter p (after es v ln e t0)) = false ->
        step EvMain (after es v ln e t0) = after es v ln e t0)) /\
    (forall sig,
       status (after es v ln e t0) = Running ->
       main (after es v ln e t0) = MainExec sig ->
       (sig = SIGUSR2 ->
        history (world (step EvMain (after es v ln e t0))) =
          CExec :: history (world (after es v ln e t0))) /\
       (sig <> SIGUSR2 ->
        main (step EvMain (after es v ln e t0)) = MainReturned /\
        world (step EvMain (after es v ln e t0)) = world (after es v ln e t0))).
Proof.
  intros v ln e t0 es.
  pose proof (shutdown_inv_after v ln e t0 es) as Hinv.
  split; [| split; [| split; [| split]]].
  - apply past_wait_all_finished, Hinv.
  - intros p Hf.
    destruct (waiter_inv_after v ln e t0 p es) as (I1 & I2 & _).
    unfold waiter_finished, waiter_timed_out in *.
    destruct (w_pc (waiter p (after es v ln e t0))) as [| | | [|]] eqn:Hpc;
      try discriminate.
    + right. destruct (I1 eq_refl).
      repeat (split; [auto |]).
      apply timed_out_origin, Hpc.
    + left. split; [reflexivity |]. split; [auto |].
      apply Wait_returned_after, doneWG_closed_released. auto.
  - intros p pick Hs Hpc Hc Ht.
    rewrite (timeout_branch _ p pick Hs (selecting_positive _ p Hinv Hpc) Hpc Hc Ht).
    destruct p; simpl_state; repeat split; auto; intros []; reflexivity.
  - intros sig Hs Hm. exact (wait_step _ sig Hinv Hs Hm).
  - intros sig Hs Hm. unfold step, ListenAndServe_step. rewrite Hs, Hm.
    split.
    + intros ->. cbn [is_SIGUSR2]. unfold call.
      destruct (reply_err _); reflexivity.
    + intros Hne. destruct sig; try congruence; split; reflexivity.
Qed.

(** C5, on a run: a handler is still running when SIGUSR2 arrives; the
    request waiter gives up after 30 seconds, and only then is
    [goagain.Exec] called. *)
Lemma C5_witness :
  (forall p,
     waiter_finished
       (waiter p (after slow_request_restart default_vars tcp_listener env_ok 0))
     = true) /\
  running (after slow_request_restart default_vars tcp_listener env_ok 0)
    = [7%nat] /\
  log (after slow_request_restart default_vars tcp_listener env_ok 0)
    = [request_msg].
Proof.
  split; [| split; reflexivity].
  apply (C5_shutdown_returns_after_all_waits default_vars tcp_listener env_ok 0
           slow_request_restart).
  right. vm_compute. apply le_n.
Defined.

(** C8.  Along every run, a waiter started with a zero grace period has
    no timer and never takes the timeout branch, whatever the clock
    shows.  When it has finished, its [doneWG] is closed, and at some
    event of the run the [wg.Wait()] of the goroutine it started
    returned, on a counter that was zero when the goroutine called
    [Wait] or that the event brought to zero while the goroutine was
    blocked.  Until then it blocks: its [select] does nothing while
    [doneWG] is open, [wg.Wait()] called on a counter that is not zero
    blocks, and a goroutine blocked in [wg.Wait()] sees a counter that
    is not zero and does nothing of its own.  The grace periods given to
    the waiters are 0 for the accept loop and the values of
    [RequestGracePeriod] and [GoroutineGracePeriod] when [ListenAndServe]
    starts them. *)
Theorem C8_zero_grace_period_waits_for_drain :
  forall (v : Vars) (ln : net_Listener) (e : Env) (t0 : Time)
         (es : list Event) (p : Pool),
    w_timeout (waiter p (after es v ln e t0)) = 0 ->
    w_timer (waiter p (after es v ln e t0)) = None /\
    timer_fired (waiter p (after es v ln e t0))
      (now (world (after es v ln e t0))) = false /\
    waiter_timed_out (waiter p (after es v ln e t0)) = false /\
    (waiter_finished (waiter p (after es v ln e t0)) = true ->
     doneWG_closed (waiter p (after es v ln e t0)) = true /\
     exists es1 ev es2,
       es = es1 ++ ev :: es2 /\ Wait_returns p ev (after es1 v ln e t0)) /\
    (forall pick,
       w_pc (waiter p (after es v ln e t0)) = WSelect ->
       doneWG_closed (waiter p (after es v ln e t0)) = false ->
       step (EvWaiter p pick) (after es v ln e t0) = after es v ln e t0) /\
    (status (after es v ln e t0) = Running ->
     w_inner (waiter p (after es v ln e t0)) = InnerStart ->
     pool_counter p (after es v ln e t0) <> 0 ->
     w_inner (waiter p (step (EvInner p) (after es v ln e t0))) = InnerWaiting) /\
    (w_inner (waiter p (after es v ln e t0)) = InnerWaiting ->
     pool_counter p (after es v ln e t0) <> 0 /\
     step (EvInner p) (after es v ln e t0) = after es v ln e t0) /\
    (forall sig,
       status (after es v ln e t0) = Running ->
       main (after es v ln e t0) = MainSpawnWaiters sig ->
       w_timeout (waiter PAccept (step EvMain (after es v ln e t0))) = 0 /\
       w_timeout (waiter PRequest (step EvMain (after es v ln e t0))) =
         RequestGracePeriod (vars (after es v ln e t0)) /\
       w_timeout (waiter PGoroutine (step EvMain (after es v ln e t0))) =
         GoroutineGracePeriod (vars (after es v ln e t0))).
Proof.
  intros v ln e t0 es p Hz.
  destruct (waiter_inv_after v ln e t0 p es) as (I1 & I2 & I3).
  assert (Hnone : w_timer (waiter p (after es v ln e t0)) = None).
  { destruct (w_timer (waiter p (after es v ln e t0))) as [d |] eqn:Hd;
      [| reflexivity].
    specialize (I3 d eq_refl). lia. }
  assert (Hnt : waiter_timed_out (waiter p (after es v ln e t0)) = false).
  { unfold waiter_timed_out.
    destruct (w_pc (waiter p (after es v ln e t0))) as [| | | [|]];
      try reflexivity.
    destruct (I1 eq_refl) as ((Hpos & _) & _). lia. }
  split; [exact Hnone |].
  split; [unfold timer_fired; rewrite Hnone; reflexivity |].
  split; [exact Hnt |].
  split; [| split; [| split; [| split]]].
  - intros Hf.
    assert (Hd : doneWG_closed (waiter p (after es v ln e t0)) = true).
    { apply I2. unfold waiter_finished, waiter_timed_out in *.
      destruct (w_pc (waiter p (after es v ln e t0))) as [| | | [|]];
        congruence. }
    split; [exact Hd |].
    apply Wait_returned_after, doneWG_closed_released, Hd.
  - intros pick Hpc Hd. apply select_blocks; assumption.
  - intros Hs. apply (Wait_blocks _ p Hs).
  - intros Hi. split; [apply waiting_inv_after, Hi |].
    destruct (status (after es v ln e t0)) eqn:Hs;
      [apply (Wait_blocks _ p Hs), Hi | apply step_stopped; congruence ..].
  - intros sig Hs Hm. rewrite (spawn_step _ sig Hs Hm).
    repeat split; reflexivity.
Qed.

(** C8, on a run with [RequestGracePeriod = 0]: the handler outlives the
    signal by an hour; the request waiter has no timer and finishes only
    after the handler has returned. *)
Lemma C8_witness :
  w_timer (waiter PRequest
             (after slow_request_terminate vars_wait_forever tcp_listener env_ok 0))
    = None /\
  waiter_timed_out
    (waiter PRequest
       (after slow_request_terminate vars_wait_forever tcp_listener env_ok 0))
    = false /\
  w_pc (waiter PRequest
          (after slow_request_terminate vars_wait_forever tcp_listener env_ok 0))
    = WFinished false /\
  now (world (after slow_request_terminate vars_wait_forever tcp_listener env_ok 0))
    = 3600 * Second.
Proof.
  destruct (C8_zero_grace_period_waits_for_drain vars_wait_forever tcp_listener
              env_ok 0 slow_request_terminate PRequest eq_refl)
    as (H1 & _ & H2 & _).
  split; [exact H1 |]. split; [exact H2 |]. split; reflexivity.
Defined.

(* ================================================================== *)
(** ** Timeouts are fixed when the connection is accepted *)

(** C10.  [Accept] returns a [timeoutConn] around the connection whose
    two timeouts are the values of [TCPReadTimeout] and [TCPWriteTimeout]
    at that call.  Assigning the variables afterwards changes none of
    the wrappers already handed to the server, and the wrapper of a
    connection served after the assignment carries the new values. *)
Theorem C10_timeouts_copied_at_accept :
  forall (v v' : Vars) (ln : net_Listener) (c : net_Conn) (s : State),
    fst (singleListener_Accept v (new_singleListener ln c)) =
      inl {| Conn := c;
             readTimeout := TCPReadTimeout v;
             writeTimeout := TCPWriteTimeout v |} /\
    serving (step (EvSetVars v') s) = serving s /\
    (status s = Running -> vars (step (EvSetVars v') s) = v') /\
    (status s = Running -> loop s = AtServe c ->
     reply_err (env (world s) (history (world s)) CServeSetup) = None ->
     serving (step EvLoop (step (EvSetVars v') s)) =
       serving s ++ [{| Conn := c;
                        readTimeout := TCPReadTimeout v';
                        writeTimeout := TCPWriteTimeout v' |}]).
Proof.
  intros v v' ln c s. split; [reflexivity |].
  assert (Hset : status s = Running -> step (EvSetVars v') s = set_vars v' s).
  { intros Hs. unfold step. rewrite Hs. reflexivity. }
  split; [| split].
  - destruct (status s) eqn:Hs;
      [rewrite Hset by reflexivity; reflexivity
      | rewrite step_stopped by congruence; reflexivity ..].
  - intros Hs. rewrite Hset by assumption. reflexivity.
  - intros Hs Hl He. rewrite Hset by assumption.
    unfold step. cbn [status set_vars]. rewrite Hs.
    rewrite (acceptLoop_step_AtServe (set_vars v' s) c Hl).
    cbn [world set_vars]. rewrite He. reflexivity.
Qed.

(** C10, on a run: a connection is served with the default timeouts, the
    variables are set to zero, a second connection is served. *)
Example timeouts_of_two_connections :
  serving (after (accept_one ++ [EvLoop; EvLoop; EvLoop; EvLoop;
                                 EvSetVars vars_no_timeouts; EvLoop])
             default_vars tcp_listener env_ok 0) =
    [{| Conn := 7%nat; readTimeout := 30 * Second; writeTimeout := 30 * Second |};
     {| Conn := 7%nat; readTimeout := 0; writeTimeout := 0 |}].
Proof. reflexivity. Qed.

(* ================================================================== *)
(** ** More on the single-use listener *)

Lemma Accept_keeps_listener (v : Vars) (s : singleListener) :
  l (snd (singleListener_Accept v s)) = l s /\
  conn (snd (singleListener_Accept v s)) = conn s /\
  done (once (snd (singleListener_Accept v s))) = true.
Proof.
  unfold singleListener_Accept, once_Do.
  destruct (done (once s)) eqn:Hd; [cbn; repeat split; auto |].
  destruct (conn s) eqn:Hc; cbn; auto.
Qed.

Lemma Close_keeps_listener (s : singleListener) (w : World) :
  l (snd (fst (singleListener_Close s w))) = l s /\
  conn (snd (fst (singleListener_Close s w))) = conn s /\
  done (once (snd (fst (singleListener_Close s w)))) = true.
Proof.
  unfold singleListener_Close, once_Do.
  destruct (done (once s)) eqn:Hd; [cbn; repeat split; auto |].
  destruct (conn s) eqn:Hc; cbn; auto.
Qed.

Lemma run_ops_keeps_listener (v : Vars) (ops : list ListenerOp) :
  forall (s : singleListener) (w : World),
    l (adapter_after v ops s w) = l s /\
    conn (adapter_after v ops s w) = conn s.
Proof.
  unfold adapter_after.
  induction ops as [| op rest IH]; intros s w; [cbn; auto |].
  destruct op; cbn [run_ops]; unfold bind, ret.
  - destruct (singleListener_Accept v s) as [r s1] eqn:Ha.
    pose proof (Accept_keeps_listener v s) as (H1 & H2 & _).
    rewrite Ha in H1, H2. cbn [snd] in H1, H2.
    specialize (IH s1 w).
    destruct (run_ops v rest s1 w) as [[rs s2] w2]. cbn in *.
    destruct IH. split; congruence.
  - destruct (singleListener_Close s w) as [[r s1] w1] eqn:Hc.
    pose proof (Close_keeps_listener s w) as (H1 & H2 & _).
    rewrite Hc in H1, H2. cbn [fst snd] in H1, H2 |- *.
    specialize (IH s1 w1).
    destruct (run_ops v rest s1 w1) as [[rs s2] w2]. cbn in *.
    destruct IH. split; congruence.
Qed.

(** X2.  Whatever calls were made on the adapter before, by whomever,
    [Addr] answers the address of the listener the adapter was built
    with. *)
Theorem Addr_is_the_listeners :
  forall (v : Vars) (ops : list ListenerOp) (ln : net_Listener) (c : net_Conn)
         (w : World),
    singleListener_Addr (adapter_after v ops (new_singleListener ln c) w) =
      listener_addr ln.
Proof.
  intros v ops ln c w. unfold singleListener_Addr.
  destruct (run_ops_keeps_listener v ops (new_singleListener ln c) w) as [-> _].
  reflexivity.
Qed.

(** On an adapter without a connection every call finds nothing to hand
    out or to close. *)
Lemma run_ops_nil_fired (v : Vars) (ops : list ListenerOp) :
  forall (s : singleListener) (w : World),
    conn s = None -> done (once s) = true ->
    results v ops s w = map exhausted ops /\ snd (run_ops v ops s w) = w.
Proof.
  intros s w _ Hd. unfold results.
  destruct (run_ops_fired v ops s w Hd) as (H1 & H2 & _). auto.
Qed.

(** X3.  An adapter built around a nil connection never hands out a
    connection: its first [Accept] already returns [errSingleListen].
    Its first [Close] panics, on the nil connection; the [Once] counts
    that call as done, so every later call returns without touching the
    connection: [Accept] with [errSingleListen], [Close] with nil.  No
    call reaches the outside world. *)
Theorem nil_connection_adapter :
  forall (v : Vars) (ln : net_Listener) (ops : list ListenerOp) (w : World),
    results v (OpAccept :: ops) (nil_singleListener ln) w =
      map exhausted (OpAccept :: ops) /\
    results v (OpClose :: ops) (nil_singleListener ln) w =
      ResClose Panicked :: map exhausted ops /\
    snd (run_ops v (OpAccept :: ops) (nil_singleListener ln) w) = w /\
    snd (run_ops v (OpClose :: ops) (nil_singleListener ln) w) = w.
Proof.
  intros v ln ops w.
  pose proof (run_ops_nil_fired v ops
                (with_once (nil_singleListener ln) {| done := true |}) w
                eq_refl eq_refl) as [H1 H2].
  unfold results in *.
  cbn [run_ops map exhausted].
  change (singleListener_Accept v (nil_singleListener ln))
    with (@inr timeoutConn error errSingleListen,
          with_once (nil_singleListener ln) {| done := true |}).
  unfold bind, ret.
  change (singleListener_Close (nil_singleListener ln) w)
    with (@Panicked (option error),
          with_once (nil_singleListener ln) {| done := true |}, w).
  cbn [fst snd].
  destruct (run_ops v ops (with_once (nil_singleListener ln) {| done := true |}) w)
    as [[rs s1] w1].
  cbn in *. subst. auto.
Qed.

(* ================================================================== *)
(** ** Sequences of reads and writes through a timeoutConn *)





(* ================================================================== *)
(** ** Begin and End *)

Lemma running_before (e : Event) (s : State) :
  status (step e s) = Running -> status s = Running.
Proof.
  intros H. destruct (status s) eqn:Hs; [reflexivity | ..];
    rewrite step_stopped in H by congruence; congruence.
Qed.

Lemma running_prefix (es : list Event) :
  forall s, status (run es s) = Running -> status s = Running.
Proof.
  induction es as [| e es IH]; intros s H; [exact H |].
  cbn [run] in H. apply (running_before e), IH, H.
Qed.

(** What a step does to [goroutineWG]. *)
Lemma goroutineWG_step (e : Event) (s : State) :
  status s = Running ->
  goroutineWG (step e s) =
    goroutineWG s + (if is_Begin e then 1 else 0) - (if is_End e then 1 else 0).
Proof.
  intros H.
  step_cases e s ltac:(cbn [is_Begin is_End]; unfold wg_Add; try congruence; lia).
Qed.

Lemma goroutineWG_nonneg_step (e : Event) (s : State) :
  (status s = Running -> 0 <= goroutineWG s) ->
  status (step e s) = Running -> 0 <= goroutineWG (step e s).
Proof.
  intros H.
  step_cases e s
    ltac:(unfold wg_Add, wg_Add_panics in *; try discriminate;
          intros; try (specialize (H eq_refl)); lia).
Qed.

(** X5.  While the process runs, [goroutineWG] is the number of [Begin]
    calls minus the number of [End] calls made so far, and it is not
    negative: an [End] that finds the counter at zero panics in
    [WaitGroup.Done] and takes the process down. *)
Theorem Begin_End_accounting :
  forall (v : Vars) (ln : net_Listener) (e : Env) (t0 : Time) (es : list Event),
    status (after es v ln e t0) = Running ->
    goroutineWG (after es v ln e t0) =
      count_events is_Begin es - count_events is_End es /\
    0 <= goroutineWG (after es v ln e t0) /\
    goroutineWG (step EvBegin (after es v ln e t0)) =
      goroutineWG (after es v ln e t0) + 1 /\
    (goroutineWG (after es v ln e t0) = 0 ->
     status (step EvEnd (after es v ln e t0)) = Crashed) /\
    (0 < goroutineWG (after es v ln e t0) ->
     status (step EvEnd (after es v ln e t0)) = Running /\
     goroutineWG (step EvEnd (after es v ln e t0)) =
       goroutineWG (after es v ln e t0) - 1).
Proof.
  intros v ln e t0 es. unfold after.
  assert (Hacc : status (run es (init v ln e t0)) = Running ->
                 goroutineWG (run es (init v ln e t0)) =
                   count_events is_Begin es - count_events is_End es /\
                 0 <= goroutineWG (run es (init v ln e t0))).
  { induction es as [| ev es IH] using rev_ind.
    - intros _. cbn. lia.
    - rewrite run_snoc. intros H.
      pose proof (running_before _ _ H) as Hs.
      destruct (IH Hs) as [IH1 IH2].
      split.
      + rewrite goroutineWG_step, IH1 by assumption.
        unfold count_events. rewrite !filter_app, !length_app.
        cbn [filter]. destruct ev; cbn [is_Begin is_End List.length]; lia.
      + apply goroutineWG_nonneg_step; auto. }
  intros H. destruct (Hacc H) as [H1 H2].
  split; [exact H1 |]. split; [exact H2 |].
  set (s := run es (init v ln e t0)) in *.
  split; [| split].
  - rewrite goroutineWG_step by assumption. cbn. lia.
  - intros Hz. unfold step, End, pool_Add_or_crash, wg_Add_panics.
    rewrite H. cbn [pool_counter]. rewrite Hz. reflexivity.
  - intros Hp. unfold step, End, pool_Add_or_crash, wg_Add_panics, pool_Add, wg_Add.
    rewrite H. cbn [pool_counter].
    destruct (Z.ltb_spec (goroutineWG s + -1) 0); [lia |].
    cbn [set_pool_counter waiter].
    destruct (w_inner (w_goroutine (set_goroutineWG (goroutineWG s + -1) s)));
      try (split; [assumption | cbn; lia]).
    destruct (goroutineWG s + -1 =? 0); split; cbn; auto; lia.
Qed.

(** X5, on a run: two goroutines are registered and one has ended. *)
Lemma Begin_End_accounting_witness :
  goroutineWG (after [EvBegin; EvLoop; EvBegin; EvEnd]
                 default_vars tcp_listener env_ok 0) = 1.
Proof.
  destruct (Begin_End_accounting default_vars tcp_listener env_ok 0
              [EvBegin; EvLoop; EvBegin; EvEnd] eq_refl) as [H _].
  rewrite H. reflexivity.
Defined.

(* ================================================================== *)
(** ** ListenAndServe and the accept loop *)

Lemma accept_waiter_inv_step (e : Event) (s : State) :
  accept_waiter_inv s -> accept_waiter_inv (step e s).
Proof.
  intros (I1 & I2 & I3 & I4 & I5).
  split; [apply accept_inv_step, I1 |].
  unfold accept_inv in I1.
  step_cases e s
    ltac:(unfold inner_released, doneWG_closed, wg_Add, wg_Add_panics in *;
          simpl_state;
          repeat match goal with
                 | H1 : w_inner _ = _ |- _ => rewrite H1 in *
                 | H1 : loop _ = _ |- _ => rewrite H1 in *
                 | H1 : status _ = _ |- _ => rewrite H1 in *
                 | H1 : (_ =? 0) = true |- _ => apply Z.eqb_eq in H1
                 | H1 : (_ =? 0) = false |- _ => apply Z.eqb_neq in H1
                 | H1 : (_ <? 0) = true |- _ => apply Z.ltb_lt in H1
                 | H1 : (_ <? 0) = false |- _ => apply Z.ltb_ge in H1
                 end;
          intuition (try congruence; try lia)).
  unfold inner_released, doneWG_closed in *. simpl_state.
  rewrite Heqi in I3. specialize (I3 eq_refl).
  repeat split; auto.
  intros _. destruct (loop s); try reflexivity; try lia.
  exfalso. apply I4; reflexivity.
Qed.

Lemma accept_waiter_inv_after (v : Vars) (ln : net_Listener) (e : Env) (t0 : Time)
  (es : list Event) :
  accept_waiter_inv (after es v ln e t0).
Proof.
  unfold after. apply run_invariant; [exact accept_waiter_inv_step |].
  unfold accept_waiter_inv, accept_inv. cbn.
  repeat split; intros; discriminate.
Qed.

(** Once [acceptLoop] has returned it stays returned, and the listener
    is not called again. *)
Lemma returned_loop_step (e : Event) (s : State) :
  loop s = LoopReturned ->
  loop (step e s) = LoopReturned /\
  listener_calls (world (step e s)) = listener_calls (world s).
Proof.
  intros H.
  step_cases e s
    ltac:(unfold listener_calls; simpl_state;
          cbn [filter is_listener_call]; auto; congruence).
Qed.

Lemma returned_loop_run (es : list Event) :
  forall s, loop s = LoopReturned ->
    loop (run es s) = LoopReturned /\
    listener_calls (world (run es s)) = listener_calls (world s).
Proof.
  induction es as [| e es IH]; intros s H; cbn [run]; [auto |].
  destruct (returned_loop_step e s H) as [H1 H2].
  destruct (IH _ H1) as [H3 H4]. split; congruence.
Qed.

(** X6.  When [allDoneWG.Wait()] has returned in [ListenAndServe], or
    only the waiter for [acceptWG] has finished, [acceptLoop] has
    returned: its deferred [acceptWG.Done()] brought the counter to
    zero, the waiter did not time out, and from then on the loop stays
    returned and the listener is never called again. *)
Theorem ListenAndServe_outlives_acceptLoop :
  forall (v : Vars) (ln : net_Listener) (e : Env) (t0 : Time) (es : list Event),
    main_past_wait (after es v ln e t0) = true \/
    waiter_finished (waiter PAccept (after es v ln e t0)) = true ->
    loop (after es v ln e t0) = LoopReturned /\
    acceptWG (after es v ln e t0) = 0 /\
    waiter_timed_out (waiter PAccept (after es v ln e t0)) = false /\
    forall es',
      loop (run es' (after es v ln e t0)) = LoopReturned /\
      listener_calls (world (run es' (after es v ln e t0))) =
        listener_calls (world (after es v ln e t0)).
Proof.
  intros v ln e t0 es H.
  assert (Hfin : waiter_finished (waiter PAccept (after es v ln e t0)) = true).
  { destruct H as [H | H]; [| exact H].
    apply past_wait_all_finished; [apply shutdown_inv_after | auto]. }
  clear H.
  destruct (accept_waiter_inv_after v ln e t0 es) as (I1 & I2 & I3 & I4 & I5).
  destruct (waiter_inv_after v ln e t0 PAccept es) as (W1 & W2 & W3).
  set (s := after es v ln e t0) in *.
  cbn [waiter] in *.
  unfold waiter_finished, waiter_timed_out in *.
  destruct (w_pc (w_accept s)) as [ | | | b] eqn:Hpc; try discriminate.
  destruct b.
  - destruct (W1 eq_refl) as ((Hpos & _) & _). lia.
  - pose proof (I5 (W2 eq_refl)) as Hl.
    unfold accept_inv in I1. rewrite Hl in I1.
    repeat split; auto; apply returned_loop_run; exact Hl.
Qed.

(** X6, on a run: the request waiter times out, [goagain.Exec] is
    called, and the loop had returned before. *)
Lemma ListenAndServe_outlives_acceptLoop_witness :
  loop (after slow_request_restart default_vars tcp_listener env_ok 0)
    = LoopReturned.
Proof.
  assert (H : main_past_wait
                (after slow_request_restart default_vars tcp_listener env_ok 0)
              = true) by (vm_compute; reflexivity).
  destruct (ListenAndServe_outlives_acceptLoop default_vars tcp_listener env_ok 0
              slow_request_restart (or_introl H)) as [Hl _].
  exact Hl.
Defined.

(* ================================================================== *)
(** ** The listener *)




(* ================================================================== *)
(** ** Before the signal *)

Lemma not_signalled_step (e : Event) (s : State) :
  is_signal e = false -> not_signalled s -> not_signalled (step e s).
Proof.
  unfold not_signalled. intros He (H1 & H2 & H3 & H4 & H5 & H6 & H7).
  step_cases e s ltac:(repeat split; assumption).
  all: destruct H2 as [H2 | (H2 & H2')]; [| congruence];
    unfold count_calls in *; simpl_state;
    cbn [filter is_exec List.length is_signal] in *;
    try rewrite H3 in *; try rewrite H4 in *; try rewrite H5 in *;
    simpl_state; try discriminate; try congruence;
    repeat split; auto; congruence.
Qed.

Lemma not_signalled_run (es : list Event) :
  forall s, existsb is_signal es = false -> not_signalled s ->
            not_signalled (run es s).
Proof.
  induction es as [| x es IH]; intros s He H; [exact H |].
  cbn [existsb] in He. apply orb_false_iff in He. destruct He as [Hx He].
  cbn [run]. apply IH; [exact He |]. apply not_signalled_step; assumption.
Qed.

(** X8.  As long as [goagain.Wait] has not returned a signal, nothing of
    the shutdown sequence happens, whatever the other goroutines do:
    [Shutdown] stays open, no waiter is started, [allDoneWG] is zero and
    [goagain.Exec] is not called; [ListenAndServe] stays blocked, unless
    [goagain.Wait] returned an error and [log.Fatalln] ended the
    process. *)
Theorem nothing_before_the_signal :
  forall (v : Vars) (ln : net_Listener) (e : Env) (t0 : Time) (es : list Event),
    existsb is_signal es = false ->
    Shutdown (after es v ln e t0) = false /\
    (main (after es v ln e t0) = MainWait \/
     (main (after es v ln e t0) = MainFatal /\
      status (after es v ln e t0) = Exited)) /\
    (forall p, waiter p (after es v ln e t0) = no_waiter) /\
    allDoneWG (after es v ln e t0) = 0 /\
    count_calls is_exec (world (after es v ln e t0)) = 0%nat.
Proof.
  intros v ln e t0 es He.
  destruct (not_signalled_run es (init v ln e t0) He)
    as (H1 & H2 & H3 & H4 & H5 & H6 & H7).
  { unfold not_signalled. cbn. auto 10. }
  unfold after. repeat split; auto. intros []; assumption.
Qed.

(** X8, on a run: a connection is served and a request handled, and
    [goagain.Wait] then fails. *)
Lemma nothing_before_the_signal_witness :
  Shutdown (after (accept_one ++ one_request 7%nat
                   ++ [EvSignal SIGTERM (Some (ErrText "wait"))])
              default_vars tcp_listener env_ok 0) = false.
Proof.
  apply (nothing_before_the_signal default_vars tcp_listener env_ok 0
           (accept_one ++ one_request 7%nat
            ++ [EvSignal SIGTERM (Some (ErrText "wait"))])).
  reflexivity.
Defined.

(* ================================================================== *)
(** ** A listener that is no TCP listener *)

Lemma listener_step (e : Event) (s : State) :
  listener (step e s) = listener s.
Proof. step_cases e s ltac:(reflexivity). Qed.

Lemma not_tcp_inv_step (e : Event) (s : State) :
  not_tcp_inv s -> not_tcp_inv (step e s).
Proof.
  unfold not_tcp_inv. intros H. rewrite listener_step. intros Hl.
  destruct (H Hl) as (A & B & C & D). clear H.
  step_cases e s
    ltac:(unfold listener_calls in *; simpl_state;
          cbn [filter is_listener_call] in *;
          try congruence;
          try (destruct D as [D | [D | [D | D]]]; congruence);
          repeat split; auto).
Qed.

(** X9.  With a listener that is no [*net.TCPListener] (an inherited
    Unix socket), [acceptLoop] never calls the listener, accepts and
    serves nothing, and never gets past its [SetDeadline]: there the
    failed type assertion panics, the deferred [acceptWG.Done()] runs and
    the process crashes. *)
Theorem not_tcp_listener_panics :
  forall (v : Vars) (ln : net_Listener) (e : Env) (t0 : Time) (es : list Event),
    listener_isTCP ln = false ->
    listener_calls (world (after es v ln e t0)) = [] /\
    accepted (after es v ln e t0) = 0%nat /\
    serving (after es v ln e t0) = [] /\
    (loop (after es v ln e t0) = AtSelect \/
     loop (after es v ln e t0) = AtSetDeadline \/
     loop (after es v ln e t0) = LoopReturned \/
     loop (after es v ln e t0) = LoopPanicked) /\
    (status (after es v ln e t0) = Running ->
     loop (after es v ln e t0) = AtSetDeadline ->
     status (step EvLoop (after es v ln e t0)) = Crashed /\
     loop (step EvLoop (after es v ln e t0)) = LoopPanicked /\
     acceptWG (step EvLoop (after es v ln e t0)) = 0 /\
     world (step EvLoop (after es v ln e t0)) = world (after es v ln e t0)).
Proof.
  intros v ln e t0 es Hl.
  assert (Hln : listener (after es v ln e t0) = ln).
  { unfold after.
    apply (run_invariant (fun s => listener s = ln)); [| reflexivity].
    intros ev s H. rewrite listener_step. exact H. }
  assert (H : not_tcp_inv (after es v ln e t0)).
  { unfold after. apply run_invariant; [exact not_tcp_inv_step |].
    intros _. cbn. auto. }
  unfold not_tcp_inv in H. rewrite Hln in H.
  destruct (H Hl) as (A & B & C & D).
  repeat (split; [assumption |]).
  intros Hs Hp.
  pose proof (accept_inv_after v ln e t0 es) as Ha.
  unfold accept_inv in Ha. rewrite Hp in Ha.
  unfold step, acceptLoop_step. rewrite Hs, Hp, Hln, Hl.
  unfold acceptLoop_panic, pool_Add, wg_Add. simpl_state. rewrite Ha.
  destruct (w_inner (w_accept (after es v ln e t0))); repeat split; reflexivity.
Qed.

(** X9, on a run: the second action of the loop is the [SetDeadline]. *)
Lemma not_tcp_listener_panics_witness :
  accepted (after [EvLoop; EvLoop; EvLoop] default_vars unix_listener env_ok 0)
    = 0%nat.
Proof.
  apply (not_tcp_listener_panics default_vars unix_listener env_ok 0
           [EvLoop; EvLoop; EvLoop]).
  reflexivity.
Defined.
